(** * UniPlugin: line counter and trigger expander

    A shallow embedding of the Obsidian plugin class [UniPlugin] (the extended
    rule catalog with eleven triggers), of the JavaScript primitives it relies
    on, and of the part of the host editor it talks to.

    - JavaScript strings are sequences of code units; a code unit is an
      [ascii] here, so documents range over the code units below 256.
    - JavaScript numbers that occur are integers or NaN ([Num]).
    - [RegExp] objects carry their [lastIndex], which [test] reads and writes
      when the [g] flag is set.
    - The host editor is a list of lines with a cursor; it also records every
      mutating call it receives, in order. *)

From Stdlib Require Import Ascii String DecimalString.
From Stdlib Require Import List ZArith Lia Bool Arith.
Import ListNotations.

Set Implicit Arguments.

(* ================================================================= *)
(** ** JavaScript strings *)

Module JS.

Definition str := list ascii.

(** A literal. *)
Definition js (s : string) : str := list_ascii_of_string s.

Definition LF : ascii := "010"%char.

(** [s[i]] with a numeric index: [undefined] outside the string. *)
Definition charAt (s : str) (i : Z) : option ascii :=
  if (i <? 0)%Z then None else nth_error s (Z.to_nat i).

(** Truthiness of a string value (possibly [undefined]). *)
Definition truthy (s : option str) : bool :=
  match s with
  | Some (_ :: _) => true
  | _ => false
  end.

(** [Array.prototype.pop] as used on a fresh array: the last element. *)
Fixpoint pop (A : Type) (l : list A) : option A :=
  match l with
  | [] => None
  | [x] => Some x
  | _ :: r => pop r
  end.

(* ----------------------------------------------------------------- *)
(** *** Numbers *)

Inductive Num := NaN | Fin (z : Z).

Definition is_digit (c : ascii) : bool :=
  let n := nat_of_ascii c in (48 <=? n) && (n <=? 57).

Definition digit_value (c : ascii) : Z := Z.of_nat (nat_of_ascii c) - 48.

(** Code units matched by [\s] (and trimmed by [Number]) below 256. *)
Definition is_space (c : ascii) : bool :=
  let n := nat_of_ascii c in
  (n =? 9) || (n =? 10) || (n =? 11) || (n =? 12) || (n =? 13) || (n =? 32)
  || (n =? 160).

(** [Number(x)] where [x] is one code unit of a string or [undefined]. *)
Definition Number (x : option ascii) : Num :=
  match x with
  | None => NaN
  | Some c =>
      if is_digit c then Fin (digit_value c)
      else if is_space c then Fin 0
      else NaN
  end.

(** [a > 0]. *)
Definition gt0 (a : Num) : bool :=
  match a with
  | NaN => false
  | Fin z => (0 <? z)%Z
  end.

(** [a - 1]. *)
Definition pred (a : Num) : Num :=
  match a with
  | NaN => NaN
  | Fin z => Fin (z - 1)
  end.

(** String conversion of a number inside a template literal; the integers
    that occur are far below the size at which JavaScript switches to
    exponent notation. *)
Definition toString (a : Num) : str :=
  match a with
  | NaN => js "NaN"
  | Fin z => js (NilZero.string_of_int (Z.to_int z))
  end.

(** Outcome of an evaluation that may throw. *)
Inductive Completion (A : Type) :=
| Normal (a : A)
| RangeError.
Arguments RangeError {A}.

(** [s.repeat(count)]: NaN counts as 0, a negative count throws. *)
Definition repeat (s : str) (count : Num) : Completion str :=
  match count with
  | NaN => Normal []
  | Fin z =>
      if (z <? 0)%Z then RangeError
      else Normal (List.concat (List.repeat s (Z.to_nat z)))
  end.

(* ----------------------------------------------------------------- *)
(** *** Splitting *)

(** [s.split(/\n|\${2}/)]: cut at every line feed and at every pair of
    dollar signs, scanning from the left. [cur] is the segment being read,
    reversed. *)
Fixpoint split_lines_from (cur : str) (s : str) : list str :=
  match s with
  | [] => [rev cur]
  | c :: r =>
      if Ascii.eqb c LF then rev cur :: split_lines_from [] r
      else
        match r with
        | d :: r' =>
            if Ascii.eqb c "$" && Ascii.eqb d "$"
            then rev cur :: split_lines_from [] r'
            else split_lines_from (c :: cur) r
        | [] => split_lines_from (c :: cur) r
        end
  end.

Definition split_lines (s : str) : list str := split_lines_from [] s.

(** [s.split(/\s+/)]: cut at every maximal run of white space. *)
Fixpoint split_space_from (cur : str) (s : str) : list str :=
  match s with
  | [] => [rev cur]
  | c :: r =>
      if is_space c then rev cur :: skip_space r
      else split_space_from (c :: cur) r
  end
with skip_space (s : str) : list str :=
  match s with
  | [] => [[]]
  | c :: r =>
      if is_space c then skip_space r
      else split_space_from [c] r
  end.

Definition split_space (s : str) : list str := split_space_from [] s.

(* ----------------------------------------------------------------- *)
(** *** Regular expressions *)

(** The patterns of the plugin are sequences of literal characters and
    digit classes. *)
Inductive Atom :=
| Chr (c : ascii)
| Digit.

Record RegExp := mkRegExp {
  source : list Atom;
  global : bool;
  ignoreCase : bool;
  lastIndex : nat
}.

(** Case folding of the [i] flag. A code unit of 128 or more never folds to
    one below 128, and the patterns hold only code units below 128, so
    folding the letters a-z is all that comparing against them needs. *)
Definition canonicalize (c : ascii) : ascii :=
  let n := nat_of_ascii c in
  if (97 <=? n) && (n <=? 122) then ascii_of_nat (n - 32) else c.

Definition atom_matches (ic : bool) (a : Atom) (c : ascii) : bool :=
  match a with
  | Digit => is_digit c
  | Chr p =>
      if ic then Ascii.eqb (canonicalize p) (canonicalize c)
      else Ascii.eqb p c
  end.

(** Does the pattern match a prefix of [s]? *)
Fixpoint match_here (ic : bool) (p : list Atom) (s : str) : bool :=
  match p, s with
  | [], _ => true
  | _ :: _, [] => false
  | a :: p', c :: s' => atom_matches ic a c && match_here ic p' s'
  end.

(** First position at or after [pos] where the pattern matches, [s] being
    the text from [pos] on. *)
Fixpoint search (ic : bool) (p : list Atom) (s : str) (pos : nat)
  : option nat :=
  if match_here ic p s then Some pos
  else
    match s with
    | [] => None
    | _ :: s' => search ic p s' (S pos)
    end.

Definition set_lastIndex (r : RegExp) (i : nat) : RegExp :=
  mkRegExp (source r) (global r) (ignoreCase r) i.

(** [r.test(s)]: the result and the regular expression afterwards. With
    the [g] flag the search starts at [lastIndex], which is then moved to
    the end of the match, or to 0 when there is none. *)
Definition test (r : RegExp) (s : str) : bool * RegExp :=
  let start := if global r then lastIndex r else 0 in
  if length s <? start then (false, if global r then set_lastIndex r 0 else r)
  else
    match search (ignoreCase r) (source r) (skipn start s) start with
    | Some i =>
        (true,
         if global r then set_lastIndex r (i + length (source r)) else r)
    | None => (false, if global r then set_lastIndex r 0 else r)
    end.

(** A match somewhere in [s], whatever [lastIndex] is. *)
Definition matches (r : RegExp) (s : str) : bool :=
  match search (ignoreCase r) (source r) s 0 with
  | Some _ => true
  | None => false
  end.

End JS.

Import JS.

(* ================================================================= *)
(** ** The host editor

    The plugin reaches the document only through [getCursor], [getRange],
    [getValue], [replaceRange] and [setCursor]. The host itself is not part
    of the plugin; it is modelled as a list of lines with a cursor, positions
    outside the document being clipped into it. Every mutating call is
    appended to [calls] with the arguments the plugin passed. The change
    event that a replacement raises is taken to be delivered once the
    running handler has returned, so one run of the expander is one pass
    over the rule list. *)

Module Host.

Record Pos := mkPos { line : Z; ch : Z }.

Inductive Call :=
| ReplaceRange (text : str) (from to : Pos)
| SetCursor (p : Pos).

Record Editor := mkEditor {
  doc : list str;
  cursor : Pos;
  calls : list Call
}.

Definition clamp (lo hi z : Z) : Z := Z.max lo (Z.min hi z).

Definition lineText (d : list str) (l : Z) : str := nth (Z.to_nat l) d [].

Definition clipPos (d : list str) (p : Pos) : Pos :=
  let l := clamp 0 (Z.of_nat (length d) - 1) (line p) in
  mkPos l (clamp 0 (Z.of_nat (length (lineText d l))) (ch p)).

(** Document order on positions. *)
Definition pos_leb (p q : Pos) : bool :=
  ((line p <? line q) || ((line p =? line q) && (ch p <=? ch q)))%Z.

(** Lines joined by line feeds. *)
Fixpoint join_lines (d : list str) : str :=
  match d with
  | [] => []
  | [x] => x
  | x :: r => x ++ LF :: join_lines r
  end.

(** The lines of a text: cut at every line feed. *)
Fixpoint lines_from (cur : str) (s : str) : list str :=
  match s with
  | [] => [rev cur]
  | c :: r =>
      if Ascii.eqb c LF then rev cur :: lines_from [] r
      else lines_from (c :: cur) r
  end.

Definition lines_of (s : str) : list str := lines_from [] s.

Definition getCursor (e : Editor) : Pos := cursor e.

Definition getValue (e : Editor) : str := join_lines (doc e).

Definition getRange (e : Editor) (from to : Pos) : str :=
  let f := clipPos (doc e) from in
  let t := clipPos (doc e) to in
  let d := doc e in
  if (line f =? line t)%Z then
    firstn (Z.to_nat (ch t) - Z.to_nat (ch f))
      (skipn (Z.to_nat (ch f)) (lineText d (line f)))
  else if (line f <? line t)%Z then
    skipn (Z.to_nat (ch f)) (lineText d (line f))
    ++ List.concat
         (map (fun x => LF :: x)
            (firstn (Z.to_nat (line t) - Z.to_nat (line f) - 1)
               (skipn (S (Z.to_nat (line f))) d)))
    ++ LF :: firstn (Z.to_nat (ch t)) (lineText d (line t))
  else [].

(** Where a position ends up when the text between [f] and [t] is replaced
    by the lines [ins] (the first of them following the text before [f],
    the last one preceding the text after [t]). *)
Definition mapPos (f t : Pos) (ins : list str) (p : Pos) : Pos :=
  if pos_leb p f then p
  else if pos_leb t p then
    let dl := (Z.of_nat (length ins) - 1 - (line t - line f))%Z in
    if (line p =? line t)%Z then
      let endch :=
        (if (length ins <=? 1)%nat
         then ch f + Z.of_nat (length (last ins []))
         else Z.of_nat (length (last ins [])))%Z in
      mkPos (line p + dl) (endch + (ch p - ch t))
    else mkPos (line p + dl) (ch p)
  else f.

Definition replaceRange (text : str) (from to : Pos) (e : Editor) : Editor :=
  let d := doc e in
  let f := clipPos d from in
  let t := clipPos d to in
  let head := firstn (Z.to_nat (ch f)) (lineText d (line f)) in
  let tail := skipn (Z.to_nat (ch t)) (lineText d (line t)) in
  mkEditor
    (firstn (Z.to_nat (line f)) d
     ++ lines_of (head ++ text ++ tail)
     ++ skipn (S (Z.to_nat (line t))) d)
    (mapPos f t (lines_of text) (cursor e))
    (calls e ++ [ReplaceRange text from to]).

Definition setCursor (p : Pos) (e : Editor) : Editor :=
  mkEditor (doc e) (clipPos (doc e) p) (calls e ++ [SetCursor p]).

Definition exec (e : Editor) (c : Call) : Editor :=
  match c with
  | ReplaceRange text from to => replaceRange text from to e
  | SetCursor p => setCursor p e
  end.

(** What the host guarantees of an editor it hands out: there is at least
    one line, no line holds a line feed, and the cursor is in the document. *)
Definition no_LF (s : str) : Prop := ~ In LF s.

Record valid (e : Editor) : Prop := {
  valid_nonempty : doc e <> [];
  valid_lines : Forall no_LF (doc e);
  valid_cursor : clipPos (doc e) (cursor e) = cursor e
}.

End Host.

Import Host.

(* ================================================================= *)
(** ** The plugin *)

Module UniPlugin.

(** The status bar element: whether it is shown, and its text. *)
Record StatusBar := mkStatusBar {
  visible : bool;
  text : str
}.

Record t := mkPlugin {
  statusBarItem : option StatusBar;
  patterns : list RegExp
}.

(** The table of language tags; no method reads it, the fence rules spell
    their tags out. *)
Definition languages : list (string * string) :=
  [ ("js", "js"); ("py", "python"); ("cpp", "cpp"); ("java", "java");
    ("psc", "pseudocodice") ]%string.

Definition lit (s : string) : list Atom := map Chr (js s).

(** A regular expression literal with the flags [gi]. *)
Definition gi (src : list Atom) : RegExp := mkRegExp src true true 0.

Definition initial_patterns : list RegExp :=
  [ gi (lit "arr" ++ [Digit]);
    gi ([Chr "m"; Digit; Chr ","; Digit]);
    gi (lit "\pars");
    gi (lit "\code");
    gi (lit "\prg:js");
    gi (lit "\prg:py");
    gi (lit "\prg:cpp");
    gi (lit "\prg:java");
    gi (lit "\prg:psc");
    gi (lit "\sys");
    gi (lit "\defn") ].

(** The plugin once [onload] has run: the status bar item exists, with an
    empty text. *)
Definition loaded : t :=
  mkPlugin (Some (mkStatusBar true [])) initial_patterns.

(** [onunload]: the status bar item is removed. *)
Definition onunload (p : t) : t := mkPlugin None (patterns p).

(** Calls on [this.statusBarItem?.]: nothing happens when it is null. *)
Definition hide (p : t) : t :=
  mkPlugin (option_map (fun b => mkStatusBar false (text b)) (statusBarItem p))
    (patterns p).

Definition show (p : t) : t :=
  mkPlugin (option_map (fun b => mkStatusBar true (text b)) (statusBarItem p))
    (patterns p).

Definition setText (s : str) (p : t) : t :=
  mkPlugin (option_map (fun b => mkStatusBar (visible b) s) (statusBarItem p))
    (patterns p).

(** [updateLineCount(fileContent?)]. *)
Definition updateLineCount (this : t) (fileContent : option str) : t :=
  match fileContent with
  | Some ((_ :: _) as content) =>
      let this := show this in
      let lines := split_lines content in
      let amount := Z.of_nat (length lines) in
      let amount :=
        match (if (amount - 1 <? 0)%Z then None
               else nth_error lines (Z.to_nat (amount - 1))) with
        | Some [] => (amount - 1)%Z
        | _ => amount
        end in
      setText (js "Lines: " ++ toString (Fin amount)) this
  | _ => hide this
  end.

Section Callback.

(** The values the callback of [forEach] closes over. *)
Variable wordBeforeCursor : option str.
Variable cursorPos : Pos.

Definition back (n : Z) : Pos := mkPos (line cursorPos) (ch cursorPos - n).

Definition nextLine : Pos := mkPos (line cursorPos + 1) 0.

Definition fence (tag : string) : str :=
  js "```" ++ js tag ++ [LF; LF] ++ js "```".

(** The [switch (index)] of the callback, entered with the word [w]. *)
Definition rule (index : nat) (w : str) (editor : Editor)
  : Completion Editor :=
  let len := Z.of_nat (length w) in
  match index with
  | 0 =>
      let amount := Number (charAt w (len - 1)) in
      let newWord := js "\begin{array}{" in
      let newWord :=
        if gt0 amount then
          match repeat (js "c") (pred amount) with
          | Normal cs => Normal (newWord ++ cs ++ js "|c")
          | RangeError => RangeError
          end
        else Normal newWord in
      match newWord with
      | RangeError => RangeError
      | Normal newWord =>
          let newWord := newWord ++ js "}\end{array}" in
          let editor := replaceRange newWord (back 4) cursorPos editor in
          Normal (setCursor (back (11 + 5)) editor)
      end
  | 1 =>
      let newWord :=
        js "M_{" ++ toString (Number (charAt w (len - 3))) ++ js ","
        ++ toString (Number (charAt w (len - 1))) ++ js "} = \pmatrix{}" in
      Normal (replaceRange newWord (back 4) cursorPos editor)
  | 2 =>
      let editor := replaceRange (js "\left(\right)") (back 5) cursorPos editor in
      Normal (setCursor (back (7 + 5)) editor)
  | 3 =>
      let editor := replaceRange (fence "") (back 5) cursorPos editor in
      Normal (setCursor nextLine editor)
  | 4 =>
      let editor := replaceRange (fence "js") (back 7) cursorPos editor in
      Normal (setCursor nextLine editor)
  | 5 =>
      let editor := replaceRange (fence "python") (back 7) cursorPos editor in
      Normal (setCursor nextLine editor)
  | 6 =>
      let editor := replaceRange (fence "cpp") (back 8) cursorPos editor in
      Normal (setCursor nextLine editor)
  | 7 =>
      let editor := replaceRange (fence "java") (back 9) cursorPos editor in
      Normal (setCursor nextLine editor)
  | 8 =>
      let editor :=
        replaceRange (fence "pseudocodice") (back 8) cursorPos editor in
      Normal (setCursor nextLine editor)
  | 9 =>
      let editor :=
        replaceRange (js "\begin{cases}\end{cases}") (back 4) cursorPos editor in
      Normal (setCursor (back (10 + 5)) editor)
  | 10 =>
      let editor := replaceRange (js "\stackrel{}{}") (back 5) cursorPos editor in
      Normal (setCursor (back (3 + 5)) editor)
  | _ => Normal editor
  end.

(** The callback: [wordBeforeCursor && pattern.test(wordBeforeCursor)]
    guards the switch; [test] is not called on a falsy word. *)
Definition callback (pattern : RegExp) (index : nat) (editor : Editor)
  : Completion unit * RegExp * Editor :=
  match wordBeforeCursor with
  | Some ((_ :: _) as w) =>
      let (matched, pattern) := test pattern w in
      if matched then
        match rule index w editor with
        | Normal editor => (Normal tt, pattern, editor)
        | RangeError => (RangeError, pattern, editor)
        end
      else (Normal tt, pattern, editor)
  | _ => (Normal tt, pattern, editor)
  end.

(** [this.patterns.forEach(callback)] from [index] on; an exception ends
    the loop. *)
Fixpoint forEach (ps : list RegExp) (index : nat) (editor : Editor)
  : Completion unit * list RegExp * Editor :=
  match ps with
  | [] => (Normal tt, [], editor)
  | pattern :: rest =>
      match callback pattern index editor with
      | (Normal _, pattern, editor) =>
          let '(c, rest, editor) := forEach rest (S index) editor in
          (c, pattern :: rest, editor)
      | (RangeError, pattern, editor) => (RangeError, pattern :: rest, editor)
      end
  end.

End Callback.

(** The last word before the cursor on the cursor line. *)
Definition wordBefore (editor : Editor) : option str :=
  let cursorPos := getCursor editor in
  pop (split_space (getRange editor (mkPos (line cursorPos) 0) cursorPos)).

(** [mathSimplifier(editor)]: the completion, the plugin and the editor
    afterwards. A null editor is [None]. *)
Definition mathSimplifier (this : t) (editor : option Editor)
  : Completion unit * t * option Editor :=
  match editor with
  | None => (Normal tt, this, None)
  | Some editor =>
      let cursorPos := getCursor editor in
      let wordBeforeCursor := wordBefore editor in
      let '(c, ps, editor) :=
        forEach wordBeforeCursor cursorPos (patterns this) 0 editor in
      (c, mkPlugin (statusBarItem this) ps, Some editor)
  end.

(** The handler of the editor-change event. *)
Definition on_editor_change (this : t) (editor : Editor)
  : Completion unit * t * option Editor :=
  let content := getValue editor in
  let this := updateLineCount this (Some content) in
  mathSimplifier this (Some editor).

(** Case 0 of the earlier rule catalog: the column count is passed to
    [repeat] without a guard. *)
Definition arr_newWord_earlier (w : str) : Completion str :=
  let len := Z.of_nat (length w) in
  match repeat (js "c") (pred (Number (charAt w (len - 1)))) with
  | Normal cs => Normal (js "\begin{array}{" ++ cs ++ js "|c}\end{array}")
  | RangeError => RangeError
  end.

End UniPlugin.

Import UniPlugin.

(* ================================================================= *)
(** ** The rules as a table

    Each case of the switch replaces a span of fixed length ending at the
    cursor by a text, and all but one then move the cursor. *)

Module Table.

(** Number of characters before the cursor that a rule consumes. *)
Definition literalLength (index : nat) : Z :=
  match index with
  | 0 => 4 | 1 => 4 | 2 => 5 | 3 => 5 | 4 => 7 | 5 => 7
  | 6 => 8 | 7 => 9 | 8 => 8 | 9 => 4 | _ => 5
  end.

(** Column specification of the array rule for the last character of the
    word. *)
Definition columns (w : str) : str :=
  match Number (charAt w (Z.of_nat (length w) - 1)) with
  | Fin z =>
      if (0 <? z)%Z then List.repeat "c"%char (Z.to_nat (z - 1)) ++ js "|c"
      else []
  | NaN => []
  end.

(** Text a rule inserts for the word [w]. *)
Definition expansion (index : nat) (w : str) : str :=
  let len := Z.of_nat (length w) in
  match index with
  | 0 => js "\begin{array}{" ++ columns w ++ js "}\end{array}"
  | 1 => js "M_{" ++ toString (Number (charAt w (len - 3))) ++ js ","
         ++ toString (Number (charAt w (len - 1))) ++ js "} = \pmatrix{}"
  | 2 => js "\left(\right)"
  | 3 => fence ""
  | 4 => fence "js"
  | 5 => fence "python"
  | 6 => fence "cpp"
  | 7 => fence "java"
  | 8 => fence "pseudocodice"
  | 9 => js "\begin{cases}\end{cases}"
  | _ => js "\stackrel{}{}"
  end.

(** Position a rule passes to [setCursor], if it calls it. *)
Definition cursorAfter (index : nat) (cursorPos : Pos) : option Pos :=
  match index with
  | 0 => Some (back cursorPos 16)
  | 1 => None
  | 2 => Some (back cursorPos 12)
  | 9 => Some (back cursorPos 15)
  | 10 => Some (back cursorPos 8)
  | _ => Some (nextLine cursorPos)
  end.

Definition replacement (index : nat) (w : str) (cursorPos : Pos) : Call :=
  ReplaceRange (expansion index w) (back cursorPos (literalLength index))
    cursorPos.

(** The calls a rule makes on the editor. *)
Definition rule_calls (index : nat) (w : str) (cursorPos : Pos) : list Call :=
  if (index <? 11)%nat then
    replacement index w cursorPos
    :: match cursorAfter index cursorPos with
       | Some p => [SetCursor p]
       | None => []
       end
  else [].

(** Indices from [index] on of the patterns whose [test] succeeds on [w],
    each [test] being run on the pattern as it stands. *)
Fixpoint fired (ps : list RegExp) (index : nat) (w : str) : list nat :=
  match ps with
  | [] => []
  | r :: rest =>
      if fst (test r w) then index :: fired rest (S index) w
      else fired rest (S index) w
  end.

(** Indices from [index] on of the patterns that occur in [w]. *)
Fixpoint matching (ps : list RegExp) (index : nat) (w : str) : list nat :=
  match ps with
  | [] => []
  | r :: rest =>
      if matches r w then index :: matching rest (S index) w
      else matching rest (S index) w
  end.

Definition is_replace (c : Call) : bool :=
  match c with
  | ReplaceRange _ _ _ => true
  | SetCursor _ => false
  end.

End Table.

Import Table.

(* ================================================================= *)
(** ** Notions used in the statements *)

(** The rule list of a plugin is the one it was created with, up to the
    [lastIndex] of each regular expression. *)
Definition same_rule (r r0 : RegExp) : Prop :=
  source r = source r0 /\ global r = global r0 /\ ignoreCase r = ignoreCase r0.

Definition rules_intact (this : t) : Prop :=
  Forall2 same_rule (patterns this) initial_patterns.

(** No pattern that occurs in [w] has a [lastIndex] left over from an
    earlier match. *)
Definition ready (this : t) (w : str) : Prop :=
  Forall (fun r => matches r w = true -> lastIndex r = 0%nat) (patterns this).

Definition tested (w : str) (ps : list RegExp) : list RegExp :=
  map (fun r => snd (test r w)) ps.

Definition fired_calls (ps : list RegExp) (index : nat) (w : str)
  (cursorPos : Pos) : list Call :=
  flat_map (fun i => rule_calls i w cursorPos) (fired ps index w).

(** What the status bar shows: its text when the element exists and is
    visible. *)
Definition displayed (p : t) : option str :=
  match statusBarItem p with
  | Some b => if visible b then Some (text b) else None
  | None => None
  end.

(** The segments of a text: what splitting on a line feed or two dollar
    signs yields. *)
Definition segments (T : str) : list str := split_lines T.

(** The count as the specification words it: the number of segments, minus
    one exactly when the final segment is the empty string. *)
Definition lineCount_spec (T : str) : Z :=
  let segs := segments T in
  match last segs [LF] with
  | [] => Z.of_nat (length segs) - 1
  | _ :: _ => Z.of_nat (length segs)
  end.

(** Text of the lines [a] when more follows, and of the lines [b] when they
    follow something. *)
Definition above (a : list str) : str :=
  List.concat (map (fun x => x ++ [LF]) a).

Definition below (b : list str) : str :=
  List.concat (map (fun x => LF :: x) b).

(** The cursor of an editor in natural numbers, the text of its line and
    the text of the document on either side of it. *)
Definition cursorLine (e : Editor) : nat := Z.to_nat (line (cursor e)).
Definition cursorCol (e : Editor) : nat := Z.to_nat (ch (cursor e)).
Definition cursorText (e : Editor) : str := lineText (doc e) (line (cursor e)).

Definition upToCursor (e : Editor) : str :=
  above (firstn (cursorLine e) (doc e)) ++ firstn (cursorCol e) (cursorText e).

Definition afterCursor (e : Editor) : str :=
  skipn (cursorCol e) (cursorText e)
  ++ below (skipn (S (cursorLine e)) (doc e)).

Definition has_no_LF (s : str) : bool :=
  forallb (fun c => negb (Ascii.eqb c LF)) s.

(** A fact about every code unit, checked on each of them. *)
Ltac all_ascii c :=
  destruct c as [[] [] [] [] [] [] [] []]; reflexivity.

(** Case analysis on the scrutinee of the first conditional of the goal. *)
Ltac break_if :=
  match goal with
  | |- context [if ?b then _ else _] => destruct b eqn:?
  end.

(** The count of a list of segments: their number, less one when the last
    one is empty. *)
Definition adjusted (segs : list str) : Z :=
  match last segs [LF] with
  | [] => Z.of_nat (length segs) - 1
  | _ :: _ => Z.of_nat (length segs)
  end.

(** The number of lines of a text as an editor counts them: one per line
    feed, and one more for characters after the last line feed. *)
Definition editor_lines (T : str) : Z :=
  Z.of_nat (count_occ ascii_dec T LF)
  + (if Ascii.eqb (last T LF) LF then 0 else 1).

Definition has_no_dollar (s : str) : bool :=
  forallb (fun c => negb (Ascii.eqb c "$")) s.

(** A word too short to hold twice, one after the other, a pattern that
    occurs in it. *)
Definition holds_once (w : str) : bool :=
  forallb (fun r => negb (matches r w)
                    || (length w <? 2 * length (source r))%nat)
    initial_patterns.

(** A text that ends with a white space character. *)
Definition ends_with_space (s : str) : Prop :=
  exists p c, s = p ++ [c] /\ is_space c = true.

Definition no_space (s : str) : Prop :=
  Forall (fun c => is_space c = false) s.

(** The words that open a code fence, each with the tag of its fence: the
    plain one, and one per entry of the table of languages. *)
Definition fence_triggers : list (string * string) :=
  ("\code", "")%string
  :: map (fun kt => (String.append "\prg:" (fst kt), snd kt)) languages.

(** Column specification of an array of [n] columns: all but the last one
    before the bar. *)
Definition array_columns (n : nat) : str :=
  match n with
  | O => []
  | S k => List.repeat "c"%char k ++ js "|c"
  end.

(* ================================================================= *)
(** ** The earlier rule catalog

    The plugin as [src/main.ts] has it: five rules, no cursor movement, the
    count of the array rule passed to [repeat] unguarded, and the last
    pattern written without flags. The status bar, [updateLineCount] and
    the shape of [mathSimplifier] are those of the extended catalog. *)

Module Earlier.

Definition initial_patterns : list RegExp :=
  [ gi (lit "arr" ++ [Digit]);
    gi ([Chr "m"; Digit; Chr ","; Digit]);
    gi (lit "\pars");
    gi (lit "\arr");
    mkRegExp (lit "\code") false false 0 ].

Definition loaded : t :=
  mkPlugin (Some (mkStatusBar true [])) initial_patterns.

Section Callback.

Variable wordBeforeCursor : option str.
Variable cursorPos : Pos.

(** The [switch (index)] of the callback, entered with the word [w]. *)
Definition rule (index : nat) (w : str) (editor : Editor)
  : Completion Editor :=
  let len := Z.of_nat (length w) in
  match index with
  | 0 =>
      match arr_newWord_earlier w with
      | RangeError => RangeError
      | Normal newWord =>
          Normal (replaceRange newWord (back cursorPos 4) cursorPos editor)
      end
  | 1 =>
      let newWord :=
        js "M_{" ++ toString (Number (charAt w (len - 3))) ++ js ","
        ++ toString (Number (charAt w (len - 1))) ++ js "} = \pmatrix{}" in
      Normal (replaceRange newWord (back cursorPos 4) cursorPos editor)
  | 2 =>
      Normal (replaceRange (js "\left(\right)") (back cursorPos 5) cursorPos
                editor)
  | 3 =>
      Normal (replaceRange (js "\begin{array}{}\end{array}")
                (back cursorPos 4) cursorPos editor)
  | 4 =>
      Normal (replaceRange (fence "") (back cursorPos 5) cursorPos editor)
  | _ => Normal editor
  end.

Definition callback (pattern : RegExp) (index : nat) (editor : Editor)
  : Completion unit * RegExp * Editor :=
  match wordBeforeCursor with
  | Some ((_ :: _) as w) =>
      let (matched, pattern) := test pattern w in
      if matched then
        match rule index w editor with
        | Normal editor => (Normal tt, pattern, editor)
        | RangeError => (RangeError, pattern, editor)
        end
      else (Normal tt, pattern, editor)
  | _ => (Normal tt, pattern, editor)
  end.

Fixpoint forEach (ps : list RegExp) (index : nat) (editor : Editor)
  : Completion unit * list RegExp * Editor :=
  match ps with
  | [] => (Normal tt, [], editor)
  | pattern :: rest =>
      match callback pattern index editor with
      | (Normal _, pattern, editor) =>
          let '(c, rest, editor) := forEach rest (S index) editor in
          (c, pattern :: rest, editor)
      | (RangeError, pattern, editor) => (RangeError, pattern :: rest, editor)
      end
  end.

End Callback.

Definition mathSimplifier (this : t) (editor : option Editor)
  : Completion unit * t * option Editor :=
  match editor with
  | None => (Normal tt, this, None)
  | Some editor =>
      let cursorPos := getCursor editor in
      let wordBeforeCursor := wordBefore editor in
      let '(c, ps, editor) :=
        forEach wordBeforeCursor cursorPos (patterns this) 0 editor in
      (c, mkPlugin (statusBarItem this) ps, Some editor)
  end.

End Earlier.

(** The rules of the earlier catalog as a table: the one call a rule makes
    when it does not throw. *)
Module EarlierTable.

Definition text (index : nat) (w : str) : str :=
  match index with
  | 0 => match arr_newWord_earlier w with
         | Normal newWord => newWord
         | RangeError => []
         end
  | 1 => expansion 1 w
  | 2 => js "\left(\right)"
  | 3 => js "\begin{array}{}\end{array}"
  | _ => fence ""
  end.

Definition consumed (index : nat) : Z :=
  match index with
  | 0 => 4 | 1 => 4 | 2 => 5 | 3 => 4 | _ => 5
  end.

Definition rule_calls (index : nat) (w : str) (cursorPos : Pos) : list Call :=
  if (index <? 5)%nat then
    [ReplaceRange (text index w) (back cursorPos (consumed index)) cursorPos]
  else [].

Definition fired_calls (ps : list RegExp) (index : nat) (w : str)
  (cp : Pos) : list Call :=
  flat_map (fun i => rule_calls i w cp) (fired ps index w).

(** The array rule throws on [w]. *)
Definition throws (w : str) : bool :=
  match arr_newWord_earlier w with
  | Normal _ => false
  | RangeError => true
  end.

End EarlierTable.

(** The rule list of a plugin of the earlier catalog is the one it was
    created with, up to the [lastIndex] of each regular expression. *)
Definition earlier_intact (this : t) : Prop :=
  Forall2 same_rule (patterns this) Earlier.initial_patterns.

(* ================================================================= *)
(** ** The event handlers *)

(** The handler of the active-leaf-change event. [file] is the content
    that reading the active file yields, [None] when no file is active. *)
Definition on_active_leaf_change (this : t) (file : option str) : t :=
  match file with
  | None => updateLineCount this None
  | Some content => updateLineCount this (Some content)
  end.

(* ================================================================= *)
(** ** Facts about the JavaScript primitives *)

Section SearchFacts.

Variable ic : bool.
Variable p : list Atom.

Lemma search_eq (s : str) (pos : nat) :
  search ic p s pos =
  if match_here ic p s then Some pos
  else match s with
       | [] => None
       | _ :: s' => search ic p s' (S pos)
       end.
Proof. destruct s; reflexivity. Qed.

(** Whether there is a match does not depend on the position counted from. *)
Lemma search_None_pos (s : str) :
  forall pos pos', search ic p s pos = None -> search ic p s pos' = None.
Proof.
  induction s as [|c s IH]; intros pos pos'.
  - simpl. destruct (match_here ic p []); [discriminate | reflexivity].
  - rewrite (search_eq (c :: s) pos), (search_eq (c :: s) pos').
    destruct (match_here ic p (c :: s)); [discriminate | apply IH].
Qed.

Lemma search_None_tail (c : ascii) (s : str) (pos pos' : nat) :
  search ic p (c :: s) pos = None -> search ic p s pos' = None.
Proof.
  rewrite search_eq.
  destruct (match_here ic p (c :: s)); [discriminate |].
  apply search_None_pos.
Qed.

(** No match in a text: no match in any of its suffixes. *)
Lemma search_None_skipn (n : nat) :
  forall (s : str) (pos pos' : nat),
    search ic p s pos = None -> search ic p (skipn n s) pos' = None.
Proof.
  induction n as [|n IH]; intros s pos pos' H.
  - simpl. eapply search_None_pos; eassumption.
  - destruct s as [|c s].
    + change (skipn (S n) (@nil ascii)) with (@nil ascii).
      eapply search_None_pos; eassumption.
    + change (skipn (S n) (c :: s)) with (skipn n s).
      apply (IH s (S pos)). eapply search_None_tail; eassumption.
Qed.

End SearchFacts.

Lemma test_source (r : RegExp) (s : str) :
  source (snd (test r s)) = source r
  /\ global (snd (test r s)) = global r
  /\ ignoreCase (snd (test r s)) = ignoreCase r.
Proof.
  unfold test.
  destruct (global r) eqn:G; break_if; simpl; auto;
    destruct (search _ _ _ _); simpl; auto.
Qed.

(** [test] can only succeed on a word in which the pattern occurs. *)
Lemma test_true_matches (r : RegExp) (s : str) :
  fst (test r s) = true -> matches r s = true.
Proof.
  unfold test, matches.
  destruct (length s <? _); [discriminate |].
  destruct (search (ignoreCase r) (source r) s 0) eqn:E; [reflexivity |].
  erewrite search_None_skipn by eassumption. discriminate.
Qed.

Lemma test_no_match (r : RegExp) (s : str) :
  matches r s = false ->
  test r s = (false, if global r then set_lastIndex r 0 else r).
Proof.
  unfold test, matches. intros H.
  destruct (length s <? _); [reflexivity |].
  destruct (search (ignoreCase r) (source r) s 0) eqn:E; [discriminate |].
  erewrite search_None_skipn by eassumption. reflexivity.
Qed.

(** With [lastIndex] at 0, [test] succeeds exactly when the pattern occurs. *)
Lemma test_fresh (r : RegExp) (s : str) :
  lastIndex r = 0%nat -> fst (test r s) = matches r s.
Proof.
  unfold test, matches. intros H.
  assert (E : (if global r then lastIndex r else 0%nat) = 0%nat)
    by (destruct (global r); auto).
  rewrite E. simpl.
  destruct (search _ _ s 0); reflexivity.
Qed.

(* ----------------------------------------------------------------- *)
(** *** The last word *)

Lemma pop_cons (A : Type) (x : A) (l : list A) :
  l <> [] -> pop (x :: l) = pop l.
Proof. destruct l; [congruence | reflexivity]. Qed.

Lemma split_space_nonempty :
  forall s cur, split_space_from cur s <> [] /\ skip_space s <> [].
Proof.
  induction s as [|c s IH]; intros cur; simpl.
  - split; discriminate.
  - destruct (is_space c); split; try discriminate;
      first [apply (proj1 (IH _)) | apply (proj2 (IH []))].
Qed.

(** The last piece of the split is a suffix of the text read so far. *)
Lemma pop_split_space_suffix :
  forall s cur w,
    (pop (split_space_from cur s) = Some w ->
     exists pre, rev cur ++ s = pre ++ w)
    /\ (pop (skip_space s) = Some w -> exists pre, s = pre ++ w).
Proof.
  induction s as [|c s IH]; intros cur w; simpl.
  - split; intros H; inversion H; subst.
    + exists []. now rewrite app_nil_r.
    + now exists [].
  - destruct (is_space c).
    + assert (K : pop (skip_space s) = Some w -> exists pre, s = pre ++ w)
        by apply (IH []).
      split; intros H.
      * rewrite pop_cons in H by apply (split_space_nonempty s []).
        destruct (K H) as [pre E].
        exists (rev cur ++ c :: pre). rewrite E, <- app_assoc. reflexivity.
      * destruct (K H) as [pre E]. exists (c :: pre). now rewrite E.
    + split; intros H.
      * destruct (proj1 (IH (c :: cur) w) H) as [pre E].
        exists pre. rewrite <- E. simpl. now rewrite <- app_assoc.
      * destruct (proj1 (IH [c] w) H) as [pre E]. exists pre. exact E.
Qed.

Lemma pop_split_space (s w : str) :
  pop (split_space s) = Some w -> exists pre, s = pre ++ w.
Proof. intros H. exact (proj1 (pop_split_space_suffix s [] w) H). Qed.

(* ----------------------------------------------------------------- *)
(** *** The switch against the table *)

Lemma concat_repeat_char (c : ascii) (n : nat) :
  List.concat (List.repeat [c] n) = List.repeat c n.
Proof. induction n; simpl; congruence. Qed.

(** The guard [amount > 0] keeps the count of [repeat] from being negative:
    building the array text never throws. *)
Lemma arr_newWord_total (w : str) :
  (let amount := Number (charAt w (Z.of_nat (length w) - 1)) in
   if gt0 amount then
     match repeat (js "c") (pred amount) with
     | Normal cs => Normal (js "\begin{array}{" ++ cs ++ js "|c")
     | RangeError => RangeError
     end
   else Normal (js "\begin{array}{"))
  = Normal (js "\begin{array}{" ++ columns w).
Proof.
  unfold columns. cbv zeta.
  destruct (Number _) as [|z]; simpl gt0; cbv iota.
  - now rewrite app_nil_r.
  - destruct (0 <? z)%Z eqn:E.
    + unfold repeat, pred.
      assert (K : (z - 1 <? 0)%Z = false) by (apply Z.ltb_ge; apply Z.ltb_lt in E; lia).
      rewrite K. change (js "c") with ["c"%char].
      now rewrite concat_repeat_char.
    + now rewrite app_nil_r.
Qed.

Lemma calls_fold (cs : list Call) :
  forall e, calls (fold_left exec cs e) = calls e ++ cs.
Proof.
  induction cs as [|c cs IH]; intros e; simpl.
  - now rewrite app_nil_r.
  - rewrite IH. destruct c; simpl; now rewrite <- app_assoc.
Qed.

(** Every case of the switch does what the table says, and none throws. *)
Lemma rule_table (cursorPos : Pos) (index : nat) (w : str) (e : Editor) :
  rule cursorPos index w e
  = Normal (fold_left exec (rule_calls index w cursorPos) e).
Proof.
  do 11 (destruct index as [|index];
         [first [ reflexivity
                | unfold rule; rewrite arr_newWord_total, <- app_assoc;
                  reflexivity ] |]).
  reflexivity.
Qed.

(* ================================================================= *)
(** ** Facts about the loop over the rules *)

Lemma forEach_falsy (wd : option str) (cp : Pos) (ps : list RegExp) :
  truthy wd = false ->
  forall index e, forEach wd cp ps index e = (Normal tt, ps, e).
Proof.
  intros H. induction ps as [|r ps IH]; intros index e; simpl.
  - reflexivity.
  - unfold callback.
    destruct wd as [[|c w]|]; try discriminate; now rewrite IH.
Qed.

Lemma forEach_truthy (w : str) (cp : Pos) (ps : list RegExp) :
  w <> [] ->
  forall index e,
    forEach (Some w) cp ps index e
    = (Normal tt, tested w ps, fold_left exec (fired_calls ps index w cp) e).
Proof.
  intros Hw. unfold fired_calls.
  induction ps as [|r ps IH]; intros index e; simpl.
  - reflexivity.
  - unfold callback. destruct w as [|c w]; [congruence |].
    destruct (test r (c :: w)) as [matched r'] eqn:T. simpl.
    destruct matched; simpl.
    + rewrite rule_table, IH, fold_left_app. reflexivity.
    + rewrite IH. reflexivity.
Qed.

Lemma mathSimplifier_truthy (this : t) (e : Editor) (w : str) :
  wordBefore e = Some w -> w <> [] ->
  mathSimplifier this (Some e)
  = (Normal tt,
     mkPlugin (statusBarItem this) (tested w (patterns this)),
     Some (fold_left exec
             (fired_calls (patterns this) 0 w (getCursor e)) e)).
Proof.
  intros H Hw. unfold mathSimplifier.
  rewrite H, forEach_truthy by assumption. reflexivity.
Qed.

Lemma mathSimplifier_falsy (this : t) (e : Editor) :
  truthy (wordBefore e) = false ->
  mathSimplifier this (Some e) = (Normal tt, this, Some e).
Proof.
  intros H. unfold mathSimplifier.
  rewrite forEach_falsy by assumption. now destruct this.
Qed.

Lemma fired_bound (w : str) (ps : list RegExp) :
  forall index i, In i (fired ps index w) -> (i < index + length ps)%nat.
Proof.
  induction ps as [|r ps IH]; intros index i; simpl; [tauto |].
  destruct (fst (test r w)); simpl; intros H.
  - destruct H as [<- | H]; [lia | apply IH in H; lia].
  - apply IH in H; lia.
Qed.

(** Where nothing is left over, the rules that fire are those that occur. *)
Lemma fired_matching (w : str) (ps : list RegExp) :
  Forall (fun r => matches r w = true -> lastIndex r = 0%nat) ps ->
  forall index, fired ps index w = matching ps index w.
Proof.
  induction 1 as [|r ps Hr _ IH]; intros index; simpl; [reflexivity |].
  destruct (matches r w) eqn:M.
  - rewrite test_fresh, M, IH by auto. reflexivity.
  - rewrite test_no_match, IH by assumption. reflexivity.
Qed.

Lemma matching_same (w : str) (ps ps0 : list RegExp) :
  Forall2 same_rule ps ps0 ->
  forall index, matching ps index w = matching ps0 index w.
Proof.
  induction 1 as [|r r0 ps ps0 (Hs & _ & Hi) _ IH]; intros index; simpl.
  - reflexivity.
  - unfold matches. rewrite Hs, Hi, IH. reflexivity.
Qed.

(** For an intact and ready rule list the rules that fire can be read off
    the initial list. *)
Lemma fired_initial (this : t) (w : str) :
  rules_intact this -> ready this w ->
  fired (patterns this) 0 w = matching initial_patterns 0 w.
Proof.
  intros Hi Hr. rewrite fired_matching by exact Hr.
  now apply matching_same.
Qed.


(** The invariant holds initially and every operation keeps it. *)
Lemma rules_intact_loaded : rules_intact loaded.
Proof.
  unfold rules_intact, same_rule. simpl. repeat constructor.
Qed.

Lemma tested_same (w : str) (ps ps0 : list RegExp) :
  Forall2 same_rule ps ps0 -> Forall2 same_rule (tested w ps) ps0.
Proof.
  induction 1 as [|r r0 ps ps0 (Hs & Hg & Hi) _ IH]; simpl; constructor; auto.
  destruct (test_source r w) as (Es & Eg & Ei).
  unfold same_rule. rewrite Es, Eg, Ei. auto.
Qed.

Lemma rules_intact_mathSimplifier (this : t) (editor : option Editor) :
  rules_intact this ->
  rules_intact (snd (fst (mathSimplifier this editor))).
Proof.
  intros H. destruct editor as [e|]; [| exact H].
  destruct (wordBefore e) as [[|c w]|] eqn:W.
  - rewrite mathSimplifier_falsy by (rewrite W; reflexivity). exact H.
  - rewrite (mathSimplifier_truthy this e W) by discriminate.
    apply tested_same, H.
  - rewrite mathSimplifier_falsy by (rewrite W; reflexivity). exact H.
Qed.

Lemma rules_intact_updateLineCount (this : t) (c : option str) :
  rules_intact this -> rules_intact (updateLineCount this c).
Proof.
  intros H. unfold updateLineCount.
  destruct c as [[|x s]|]; exact H.
Qed.

Lemma ready_loaded (w : str) : ready loaded w.
Proof.
  unfold ready. simpl. repeat constructor.
Qed.

(* ================================================================= *)
(** ** Facts about the host editor *)

Section LinesFacts.

Lemma lines_from_acc (s : str) :
  forall cur,
    lines_from cur s =
    match lines_of s with
    | x :: r => (rev cur ++ x) :: r
    | [] => []
    end.
Proof.
  unfold lines_of.
  induction s as [|c s IH]; intros cur; simpl.
  - now rewrite app_nil_r.
  - destruct (Ascii.eqb c LF).
    + now rewrite app_nil_r.
    + rewrite (IH (c :: cur)), (IH [c]).
      destruct (lines_from [] s); [reflexivity |].
      simpl. now rewrite <- app_assoc.
Qed.

Lemma lines_from_nonempty (s : str) : forall cur, lines_from cur s <> [].
Proof.
  induction s as [|c s IH]; intros cur; simpl; [discriminate |].
  destruct (Ascii.eqb c LF); [discriminate | apply IH].
Qed.

Lemma lines_of_nonempty (s : str) : lines_of s <> [].
Proof. apply lines_from_nonempty. Qed.

Lemma lines_of_cons (c : ascii) (s : str) :
  lines_of (c :: s) =
  if Ascii.eqb c LF then [] :: lines_of s
  else (c :: hd [] (lines_of s)) :: tl (lines_of s).
Proof.
  unfold lines_of at 1. simpl.
  destruct (Ascii.eqb c LF); [reflexivity |].
  rewrite lines_from_acc.
  pose proof (lines_of_nonempty s).
  destruct (lines_of s); [congruence | reflexivity].
Qed.

(** A text without line feed in front stays on the line it is put on. *)
Lemma lines_of_app (a s : str) :
  no_LF a ->
  lines_of (a ++ s) = (a ++ hd [] (lines_of s)) :: tl (lines_of s).
Proof.
  induction a as [|c a IH]; intros H; simpl.
  - pose proof (lines_of_nonempty s).
    destruct (lines_of s); [congruence | reflexivity].
  - rewrite lines_of_cons.
    destruct (Ascii.eqb_spec c LF) as [->|_].
    + exfalso. apply H. now left.
    + rewrite IH; [reflexivity |]. intros K. apply H. now right.
Qed.

Lemma lines_of_no_LF (s : str) : no_LF s -> lines_of s = [s].
Proof.
  intros H. rewrite <- (app_nil_r s) at 1.
  rewrite lines_of_app by exact H. simpl. now rewrite app_nil_r.
Qed.

Lemma join_lines_cons (x : str) (r : list str) :
  r <> [] -> join_lines (x :: r) = x ++ LF :: join_lines r.
Proof. destruct r; [congruence | reflexivity]. Qed.

(** Cutting a text into lines and joining them gives the text back. *)
Lemma join_lines_of (s : str) : join_lines (lines_of s) = s.
Proof.
  induction s as [|c s IH]; [reflexivity |].
  rewrite lines_of_cons.
  pose proof (lines_of_nonempty s) as N.
  destruct (Ascii.eqb_spec c LF) as [->|_].
  - rewrite join_lines_cons by exact N. simpl. now rewrite IH.
  - destruct (lines_of s) as [|x r]; [congruence |]. simpl hd. simpl tl.
    destruct r as [|y r]; simpl in *; now rewrite <- IH.
Qed.

Lemma join_lines_below (x : str) (b : list str) :
  join_lines (x :: b) = x ++ below b.
Proof.
  revert x. induction b as [|y b IH]; intros x.
  - simpl. now rewrite app_nil_r.
  - rewrite join_lines_cons by discriminate. rewrite IH. reflexivity.
Qed.

Lemma join_lines_app_below (m b : list str) :
  m <> [] -> join_lines (m ++ b) = join_lines m ++ below b.
Proof.
  induction m as [|x m IH]; intros H; [congruence |].
  destruct m as [|y m].
  - simpl app. apply join_lines_below.
  - change ((x :: y :: m) ++ b) with (x :: (y :: m) ++ b).
    rewrite join_lines_cons by discriminate.
    rewrite IH by discriminate.
    rewrite (join_lines_cons x (r := y :: m)) by discriminate.
    now rewrite <- app_assoc.
Qed.

Lemma join_lines_sandwich (a m b : list str) :
  m <> [] -> join_lines (a ++ m ++ b) = above a ++ join_lines m ++ below b.
Proof.
  intros H. induction a as [|x a IH].
  - simpl. now apply join_lines_app_below.
  - simpl app. rewrite join_lines_cons.
    + rewrite IH. unfold above. simpl. now rewrite <- !app_assoc.
    + destruct a; simpl; [destruct m; [congruence | discriminate] | discriminate].
Qed.

End LinesFacts.

Lemma clamp_range (lo hi z : Z) :
  (lo <= hi)%Z -> (lo <= clamp lo hi z <= hi)%Z.
Proof. unfold clamp. lia. Qed.

Lemma clamp_id (lo hi z : Z) : (lo <= z <= hi)%Z -> clamp lo hi z = z.
Proof. unfold clamp. lia. Qed.

Lemma clipPos_id (d : list str) (p : Pos) :
  (0 <= line p <= Z.of_nat (length d) - 1)%Z ->
  (0 <= ch p <= Z.of_nat (length (lineText d (line p))))%Z ->
  clipPos d p = p.
Proof.
  intros Hl Hc. unfold clipPos.
  rewrite (clamp_id Hl), (clamp_id Hc). now destruct p.
Qed.

Section EditorFacts.

Variable e : Editor.
Hypothesis V : valid e.

Lemma valid_line :
  (0 <= line (cursor e) <= Z.of_nat (length (doc e)) - 1)%Z.
Proof.
  destruct V as [Hne _ Hc].
  assert (1 <= length (doc e))%nat
    by (destruct (doc e); [congruence | simpl; lia]).
  apply (f_equal line) in Hc. simpl in Hc. rewrite <- Hc.
  apply clamp_range. lia.
Qed.

Lemma valid_ch :
  (0 <= ch (cursor e) <= Z.of_nat (length (cursorText e)))%Z.
Proof.
  destruct V as [_ _ Hc].
  pose proof (f_equal line Hc) as Hl. simpl in Hl.
  apply (f_equal ch) in Hc. simpl in Hc. rewrite Hl in Hc.
  unfold cursorText. rewrite <- Hc at 1 2.
  apply clamp_range. lia.
Qed.

Lemma cursorLine_lt : (cursorLine e < length (doc e))%nat.
Proof. pose proof valid_line. unfold cursorLine. lia. Qed.

Lemma cursorCol_le : (cursorCol e <= length (cursorText e))%nat.
Proof. pose proof valid_ch. unfold cursorCol. lia. Qed.

Lemma doc_split :
  doc e = firstn (cursorLine e) (doc e) ++ cursorText e
          :: skipn (S (cursorLine e)) (doc e).
Proof.
  pose proof cursorLine_lt as H.
  unfold cursorText, lineText. fold (cursorLine e).
  revert H. generalize (cursorLine e) as n. generalize (doc e) as d.
  induction d as [|x d IH]; intros n H; simpl in H; [lia |].
  destruct n as [|n]; [reflexivity |].
  simpl. f_equal. apply IH. lia.
Qed.

Lemma cursorText_no_LF : no_LF (cursorText e).
Proof.
  destruct V as [_ Hl _].
  rewrite Forall_forall in Hl. apply Hl.
  unfold cursorText, lineText. apply nth_In. exact cursorLine_lt.
Qed.

Lemma getValue_cursor : getValue e = upToCursor e ++ afterCursor e.
Proof.
  unfold getValue, upToCursor, afterCursor.
  rewrite doc_split at 1.
  change (cursorText e :: ?b) with ([cursorText e] ++ b).
  rewrite join_lines_sandwich by discriminate. simpl join_lines.
  rewrite <- (firstn_skipn (cursorCol e) (cursorText e)) at 1.
  now rewrite <- !app_assoc.
Qed.

Lemma getRange_to_cursor :
  getRange e (mkPos (line (cursor e)) 0) (cursor e)
  = firstn (cursorCol e) (cursorText e).
Proof.
  pose proof valid_line as Hl. pose proof valid_ch as Hc.
  unfold getRange.
  rewrite (clipPos_id (doc e) (cursor e)) by assumption.
  rewrite clipPos_id by (simpl; lia).
  simpl. rewrite Z.eqb_refl. simpl. rewrite Nat.sub_0_r. reflexivity.
Qed.

(** The word before the cursor ends at the cursor. *)
Lemma wordBefore_suffix (w : str) :
  wordBefore e = Some w ->
  exists pre, firstn (cursorCol e) (cursorText e) = pre ++ w.
Proof.
  unfold wordBefore, getCursor. rewrite getRange_to_cursor.
  apply pop_split_space.
Qed.

Lemma wordBefore_length (w : str) :
  wordBefore e = Some w -> (length w <= cursorCol e)%nat.
Proof.
  intros H. destruct (wordBefore_suffix H) as [pre E].
  apply (f_equal (@length ascii)) in E.
  rewrite length_app, firstn_length_le in E by exact cursorCol_le. lia.
Qed.

(** Replacing the [k] characters before the cursor: the lines above and
    below stay, the cursor line is rebuilt around the new text. *)
Lemma replaceRange_back (text : str) (k : Z) :
  (0 <= k <= ch (cursor e))%Z ->
  doc (replaceRange text (back (cursor e) k) (cursor e) e)
  = firstn (cursorLine e) (doc e)
    ++ lines_of (firstn (cursorCol e - Z.to_nat k) (cursorText e)
                 ++ text ++ skipn (cursorCol e) (cursorText e))
    ++ skipn (S (cursorLine e)) (doc e).
Proof.
  intros Hk. pose proof valid_line as Hl. pose proof valid_ch as Hc.
  unfold replaceRange. cbn [doc].
  rewrite (clipPos_id (doc e) (cursor e)) by assumption.
  rewrite clipPos_id by (unfold back; simpl; fold (cursorText e); lia).
  unfold back. cbn [line ch]. fold (cursorText e) (cursorLine e) (cursorCol e).
  replace (Z.to_nat (ch (cursor e) - k)) with (cursorCol e - Z.to_nat k)%nat
    by (unfold cursorCol; lia).
  reflexivity.
Qed.

End EditorFacts.

(* ================================================================= *)
(** ** Facts about the line counter *)

Lemma split_lines_from_nonempty (n : nat) :
  forall s cur, (length s <= n)%nat -> split_lines_from cur s <> [].
Proof.
  induction n as [|n IH]; intros s cur H.
  - destruct s; [discriminate | simpl in H; lia].
  - destruct s as [|c s]; [discriminate |].
    simpl in H. simpl.
    destruct (Ascii.eqb c LF); [discriminate |].
    destruct s as [|d s]; [discriminate |].
    destruct (Ascii.eqb c "$" && Ascii.eqb d "$"); [discriminate |].
    apply IH. simpl in *. lia.
Qed.

Lemma segments_nonempty (T : str) : segments T <> [].
Proof. exact (@split_lines_from_nonempty (length T) T [] (le_n _)). Qed.

Lemma nth_error_last (A : Type) (d : A) (l : list A) :
  l <> [] -> nth_error l (length l - 1) = Some (last l d).
Proof.
  induction l as [|x l IH]; intros H; [congruence |].
  destruct l as [|y l]; [reflexivity |].
  replace (length (x :: y :: l) - 1)%nat with (S (length (y :: l) - 1))
    by (simpl; lia).
  apply IH. discriminate.
Qed.

(** The index [lines[amount - 1]] of the code reads the final segment. *)
Lemma updateLineCount_shown (this : t) (T : str) :
  T <> [] ->
  updateLineCount this (Some T)
  = setText (js "Lines: " ++ toString (Fin (lineCount_spec T))) (show this).
Proof.
  intros H. destruct T as [|c T]; [congruence |].
  unfold updateLineCount, lineCount_spec, segments.
  pose proof (segments_nonempty (c :: T)) as N. unfold segments in N.
  set (lines := split_lines (c :: T)) in *.
  assert (L : (1 <= length lines)%nat)
    by (destruct lines; [congruence | simpl; lia]).
  assert (K : (Z.of_nat (length lines) - 1 <? 0)%Z = false)
    by (apply Z.ltb_ge; lia).
  rewrite K.
  replace (Z.to_nat (Z.of_nat (length lines) - 1)) with (length lines - 1)%nat
    by lia.
  assert (E : nth_error lines (length lines - 1) = Some (last lines [LF]))
    by (apply nth_error_last; exact N).
  rewrite E.
  destruct (last lines [LF]); reflexivity.
Qed.

Lemma displayed_hide (this : t) : displayed (hide this) = None.
Proof. unfold displayed, hide. simpl. now destruct (statusBarItem this). Qed.

(* ----------------------------------------------------------------- *)
(** *** Rules that do not fire *)

Lemma fired_none (w : str) (ps : list RegExp) :
  Forall (fun r => matches r w = false) ps ->
  forall index, fired ps index w = [].
Proof.
  induction 1 as [|r ps Hr _ IH]; intros index; simpl; [reflexivity |].
  rewrite test_no_match by exact Hr. simpl. apply IH.
Qed.

Lemma hello_matches_none :
  Forall (fun r => matches r (js "hello") = false) (patterns loaded).
Proof. simpl. repeat constructor. Qed.

(* ----------------------------------------------------------------- *)
(** *** One rule firing *)

Lemma has_no_LF_sound (s : str) : has_no_LF s = true -> no_LF s.
Proof.
  unfold has_no_LF, no_LF. rewrite forallb_forall. intros H K.
  apply H in K. now rewrite Ascii.eqb_refl in K.
Qed.

Lemma no_LF_app (a b : str) : no_LF a -> no_LF b -> no_LF (a ++ b).
Proof. unfold no_LF. intros Ha Hb K. apply in_app_or in K. tauto. Qed.

Lemma no_LF_firstn (n : nat) (s : str) : no_LF s -> no_LF (firstn n s).
Proof.
  unfold no_LF. intros H K. apply H.
  rewrite <- (firstn_skipn n s). apply in_or_app. now left.
Qed.

Lemma no_LF_skipn (n : nat) (s : str) : no_LF s -> no_LF (skipn n s).
Proof.
  unfold no_LF. intros H K. apply H.
  rewrite <- (firstn_skipn n s). apply in_or_app. now right.
Qed.

Lemma fired_calls_single (ps : list RegExp) (w : str) (cp : Pos) (i : nat) :
  fired ps 0 w = [i] -> fired_calls ps 0 w cp = rule_calls i w cp.
Proof.
  unfold fired_calls. intros ->. simpl. now rewrite app_nil_r.
Qed.

Lemma doc_rule_calls (i : nat) (w : str) (cp : Pos) (e : Editor) :
  (i < 11)%nat ->
  doc (fold_left exec (rule_calls i w cp) e)
  = doc (replaceRange (expansion i w) (back cp (literalLength i)) cp e).
Proof.
  intros H. unfold rule_calls. apply Nat.ltb_lt in H. rewrite H.
  unfold replacement. destruct (cursorAfter i cp); reflexivity.
Qed.

Lemma literalLength_range (i : nat) : (4 <= literalLength i <= 9)%Z.
Proof.
  do 11 (destruct i as [|i]; [simpl; lia |]). simpl. lia.
Qed.

Section OneRule.

Variable e : Editor.
Hypothesis V : valid e.
Variable w : str.
Hypothesis W : wordBefore e = Some w.

(** The text before the cursor on its line ends with the word. *)
Lemma consumed_is_word :
  firstn (cursorCol e) (cursorText e)
  = firstn (cursorCol e - length w) (cursorText e) ++ w.
Proof.
  destruct (wordBefore_suffix V W) as [pre E].
  pose proof (cursorCol_le V) as Hc.
  pose proof (f_equal (@length ascii) E) as Hl.
  rewrite length_app, firstn_length_le in Hl by exact Hc.
  rewrite E at 1. f_equal.
  replace (cursorCol e - length w)%nat with (length pre) by lia.
  replace (firstn (length pre) (cursorText e))
    with (firstn (length pre) (firstn (cursorCol e) (cursorText e)))
    by (rewrite firstn_firstn; f_equal; lia).
  rewrite E, firstn_app, Nat.sub_diag, firstn_all. simpl.
  now rewrite app_nil_r.
Qed.

(** Document after the calls of rule [i], when the word is at least as
    long as the span the rule consumes. *)
Lemma doc_after_rule (i : nat) :
  (i < 11)%nat ->
  (literalLength i <= Z.of_nat (length w))%Z ->
  doc (fold_left exec (rule_calls i w (cursor e)) e)
  = firstn (cursorLine e) (doc e)
    ++ lines_of (firstn (cursorCol e - Z.to_nat (literalLength i))
                   (cursorText e)
                 ++ expansion i w ++ skipn (cursorCol e) (cursorText e))
    ++ skipn (S (cursorLine e)) (doc e).
Proof.
  intros Hi Hk. rewrite doc_rule_calls by exact Hi.
  apply replaceRange_back; [exact V |].
  pose proof (wordBefore_length V W). pose proof (literalLength_range i).
  pose proof (valid_ch V). unfold cursorCol in *. lia.
Qed.

End OneRule.

Lemma mathSimplifier_one_rule (this : t) (e : Editor) (w : str) (i : nat) :
  wordBefore e = Some w -> w <> [] ->
  fired (patterns this) 0 w = [i] ->
  mathSimplifier this (Some e)
  = (Normal tt,
     mkPlugin (statusBarItem this) (tested w (patterns this)),
     Some (fold_left exec (rule_calls i w (cursor e)) e)).
Proof.
  intros Hw Hne Hf.
  rewrite (mathSimplifier_truthy this e Hw Hne).
  now rewrite (fired_calls_single _ _ _ Hf).
Qed.

(** A rule that inserts a text without line feed for a word that is exactly
    its trigger: the calls it makes and the document afterwards. *)
Lemma expand_on_one_line (this : t) (e : Editor) (w : str) (i : nat) :
  rules_intact this ->
  ready this w ->
  valid e ->
  wordBefore e = Some w ->
  w <> [] ->
  matching initial_patterns 0 w = [i] ->
  literalLength i = Z.of_nat (length w) ->
  has_no_LF (expansion i w) = true ->
  exists this' e',
    mathSimplifier this (Some e) = (Normal tt, this', Some e')
    /\ calls e' = calls e ++ rule_calls i w (cursor e)
    /\ firstn (cursorCol e) (cursorText e)
       = firstn (cursorCol e - length w) (cursorText e) ++ w
    /\ doc e'
       = firstn (cursorLine e) (doc e)
         ++ [firstn (cursorCol e - length w) (cursorText e)
             ++ expansion i w ++ skipn (cursorCol e) (cursorText e)]
         ++ skipn (S (cursorLine e)) (doc e).
Proof.
  intros Hi Hr V W Hne Hm Hk Hx.
  assert (F : fired (patterns this) 0 w = [i])
    by (rewrite fired_initial; assumption).
  assert (I : (i < 11)%nat).
  { assert (K : In i (fired (patterns this) 0 w)) by (rewrite F; now left).
    apply fired_bound in K. now rewrite (Forall2_length Hi) in K. }
  do 2 eexists. split; [apply (mathSimplifier_one_rule this e W Hne F) |].
  split; [apply calls_fold |].
  split; [apply (consumed_is_word V W) |].
  rewrite (doc_after_rule V W I) by lia.
  rewrite Hk, Nat2Z.id.
  rewrite lines_of_no_LF; [reflexivity |].
  pose proof (cursorText_no_LF V).
  repeat apply no_LF_app;
    auto using no_LF_firstn, no_LF_skipn, has_no_LF_sound.
Qed.

Lemma nth_after_prefix (A : Type) (a : list A) (x y : A) (r : list A) (d : A) :
  nth (S (length a)) (a ++ x :: y :: r) d = y.
Proof. induction a as [|z a IH]; [reflexivity | exact IH]. Qed.

(* ----------------------------------------------------------------- *)
(** *** The frame of one replacement *)

Lemma match_here_length (ic : bool) (p : list Atom) :
  forall s, match_here ic p s = true -> (length p <= length s)%nat.
Proof.
  induction p as [|a p IH]; intros s H; simpl; [lia |].
  destruct s as [|c s]; simpl in H; [discriminate |].
  apply andb_true_iff in H. destruct H as [_ H]. apply IH in H. simpl. lia.
Qed.

Lemma search_length (ic : bool) (p : list Atom) :
  forall s pos i, search ic p s pos = Some i -> (length p <= length s)%nat.
Proof.
  induction s as [|c s IH]; intros pos i; rewrite search_eq;
    destruct (match_here ic p _) eqn:M; intros H.
  - now apply match_here_length in M.
  - discriminate.
  - now apply match_here_length in M.
  - apply IH in H. simpl. lia.
Qed.

Lemma matches_length (r : RegExp) (w : str) :
  matches r w = true -> (length (source r) <= length w)%nat.
Proof.
  unfold matches. destruct (search _ _ w 0) eqn:E; [| discriminate].
  intros _. eapply search_length; eassumption.
Qed.

(** A rule that fires has its pattern in the word, so the word is at least
    as long as the pattern. *)
Lemma fired_source_length (w : str) (ps ps0 : list RegExp) :
  Forall2 same_rule ps ps0 ->
  forall index i,
    In i (fired ps index w) ->
    exists r0, nth_error ps0 (i - index) = Some r0
               /\ (index <= i)%nat
               /\ (length (source r0) <= length w)%nat.
Proof.
  induction 1 as [|r r0 ps ps0 (Hs & _) _ IH]; intros index i; simpl;
    [tauto |].
  assert (K : In i (fired ps (S index) w) ->
              exists r1, nth_error (r0 :: ps0) (i - index) = Some r1
                         /\ (index <= i)%nat
                         /\ (length (source r1) <= length w)%nat).
  { intros Hin. destruct (IH _ _ Hin) as (r1 & E & Hle & Hlen).
    exists r1. replace (i - index)%nat with (S (i - S index)) by lia.
    simpl. repeat split; [exact E | lia | exact Hlen]. }
  destruct (fst (test r w)) eqn:T; [| exact K].
  intros [<- | Hin]; [| exact (K Hin)].
  exists r0. rewrite Nat.sub_diag. repeat split; [lia |].
  rewrite <- Hs. apply matches_length, test_true_matches, T.
Qed.

Lemma initial_source_length (i : nat) (r0 : RegExp) :
  nth_error initial_patterns i = Some r0 ->
  Z.of_nat (length (source r0)) = literalLength i.
Proof.
  do 11 (destruct i as [|i]; [intros H; inversion H; reflexivity |]).
  destruct i; discriminate.
Qed.

Lemma fired_literalLength (this : t) (w : str) (i : nat) :
  rules_intact this ->
  In i (fired (patterns this) 0 w) ->
  (i < 11)%nat /\ (literalLength i <= Z.of_nat (length w))%Z.
Proof.
  intros Hi Hin. split.
  - apply fired_bound in Hin. now rewrite (Forall2_length Hi) in Hin.
  - destruct (@fired_source_length w _ _ Hi 0%nat i Hin)
      as (r0 & E & _ & Hlen).
    rewrite Nat.sub_0_r in E.
    rewrite <- (@initial_source_length i r0 E). lia.
Qed.

Lemma firstn_prefix_length (A : Type) (a b : list A) :
  firstn (length a) (a ++ b) = a.
Proof.
  rewrite firstn_app, Nat.sub_diag, firstn_all. simpl. apply app_nil_r.
Qed.

Lemma nth_at_prefix (A : Type) (a m b : list A) (d : A) :
  m <> [] -> nth (length a) (a ++ m ++ b) d = hd d m.
Proof.
  intros H. rewrite app_nth2, Nat.sub_diag by lia.
  destruct m; [congruence | reflexivity].
Qed.

(* ================================================================= *)
(** ** The line counter: what is displayed *)

(** C2 (as amended). For the empty document text the line counter hides
    the status display and sets no text: the guard on the content treats
    the empty string like missing content, so no count is shown. *)
Theorem lineCount_empty_text_hidden (this : t) :
  updateLineCount this (Some (js "")) = hide this
  /\ displayed (updateLineCount this (Some (js ""))) = None.
Proof.
  split; [reflexivity |].
  change (updateLineCount this (Some (js ""))) with (hide this).
  apply displayed_hide.
Qed.

(** C2 as stated fails: on the empty text a loaded plugin does not show
    the text with the count 1. *)
Lemma lineCount_empty_text_not_one :
  displayed (updateLineCount loaded (Some (js ""))) <> Some (js "Lines: 1").
Proof. vm_compute. discriminate. Qed.

(** C3 (as amended). For every defined, non-empty document text the
    displayed count is the number of segments, minus one exactly when the
    final segment is empty; when the content is undefined, or the empty
    string, the display is hidden; and the text a, line feed, b, line feed
    displays 2. *)
Theorem lineCount_nonempty_text (this : t) (sb : StatusBar) (T : str) :
  statusBarItem this = Some sb ->
  T <> [] ->
  displayed (updateLineCount this (Some T))
  = Some (js "Lines: " ++ toString (Fin (lineCount_spec T)))
  /\ displayed (updateLineCount this None) = None
  /\ displayed (updateLineCount this (Some [])) = None
  /\ displayed (updateLineCount this (Some ["a"; LF; "b"; LF]%char))
     = Some (js "Lines: 2").
Proof.
  intros Hsb HT. repeat split.
  - rewrite updateLineCount_shown by exact HT.
    unfold displayed, setText, show. simpl. now rewrite Hsb.
  - apply displayed_hide.
  - apply displayed_hide.
  - rewrite updateLineCount_shown by discriminate.
    unfold displayed, setText, show. simpl statusBarItem. rewrite Hsb.
    reflexivity.
Qed.

Lemma lineCount_nonempty_text_witness :
  displayed (updateLineCount loaded (Some (js "x$$y")))
  = Some (js "Lines: " ++ toString (Fin (lineCount_spec (js "x$$y")))).
Proof.
  refine (proj1 (@lineCount_nonempty_text loaded (mkStatusBar true [])
                   (js "x$$y") _ _)).
  - reflexivity.
  - discriminate.
Defined.

(** C3 as stated fails at the empty text, which is defined: nothing is
    displayed there, not the count of the claim. *)
Lemma lineCount_empty_text_not_counted :
  displayed (updateLineCount loaded (Some (js "")))
  <> Some (js "Lines: " ++ toString (Fin (lineCount_spec (js "")))).
Proof. vm_compute. discriminate. Qed.

(* ================================================================= *)
(** ** The trigger expander: what one step does *)

(** C1 fails on the code. Run twice on identical copies of one editor
    state, the expansion step replaces the first time and does nothing the
    second time: the first run leaves lastIndex 4 in the first regular
    expression of the rule list, which the second run starts from. *)
Theorem second_run_differs :
  let e := mkEditor [js "arr3"] (mkPos 0 4) [] in
  let run1 := mathSimplifier loaded (Some e) in
  let run2 := mathSimplifier (snd (fst run1)) (Some e) in
  option_map calls (snd run1)
  = Some [ ReplaceRange (js "\begin{array}{cc|c}\end{array}")
             (mkPos 0 0) (mkPos 0 4);
           SetCursor (mkPos 0 (-12)) ]
  /\ option_map calls (snd run2) = Some []
  /\ option_map doc (snd run2) = Some [js "arr3"]
  /\ map lastIndex (patterns (snd (fst run1)))
     = [4; 0; 0; 0; 0; 0; 0; 0; 0; 0; 0]%nat
  /\ map lastIndex (patterns loaded) = [0; 0; 0; 0; 0; 0; 0; 0; 0; 0; 0]%nat.
Proof. vm_compute. repeat split. Qed.

(** C6. When the text from the start of the cursor line to the cursor is
    empty, or when the last word before the cursor matches none of the
    patterns of the rule list, the expansion step completes and leaves the
    editor as it was: same document, same cursor, no call made. *)
Theorem no_match_is_no_op (this : t) (e : Editor) :
  getRange e (mkPos (line (getCursor e)) 0) (getCursor e) = []
  \/ (exists w, wordBefore e = Some w
                /\ Forall (fun r => matches r w = false) (patterns this)) ->
  exists this', mathSimplifier this (Some e) = (Normal tt, this', Some e).
Proof.
  intros [H | (w & Hw & Hn)].
  - exists this. apply mathSimplifier_falsy.
    unfold wordBefore. rewrite H. reflexivity.
  - destruct w as [|c w].
    + exists this. apply mathSimplifier_falsy. rewrite Hw. reflexivity.
    + eexists. rewrite (mathSimplifier_truthy this e Hw) by discriminate.
      unfold fired_calls. rewrite fired_none by exact Hn. reflexivity.
Qed.

Lemma no_match_is_no_op_witness :
  exists this',
    mathSimplifier loaded (Some (mkEditor [js "say hello"] (mkPos 0 9) []))
    = (Normal tt, this', Some (mkEditor [js "say hello"] (mkPos 0 9) [])).
Proof.
  apply no_match_is_no_op. right. exists (js "hello"). split.
  - reflexivity.
  - exact hello_matches_none.
Defined.



(** C7 fails on the code. With the rule list as one expansion of arr3
    has left it, intact but with lastIndex 4 in the array pattern, a valid
    editor whose word before the cursor is arr3 gets no call: the four
    characters stay, nothing is inserted, and the run only puts lastIndex
    back to 0. The defect is the one of C1, a lastIndex kept between runs
    by the g flag; on a rule list without such a lastIndex the word is
    replaced by the array environment with the columns cc|c. *)
Theorem arr3_skipped_after_match :
  let this1 :=
    snd (fst (mathSimplifier loaded
                (Some (mkEditor [js "arr3"] (mkPos 0 4) [])))) in
  let e := mkEditor [js "x = arr3 y"] (mkPos 0 8) [] in
  rules_intact this1
  /\ valid e
  /\ wordBefore e = Some (js "arr3")
  /\ map lastIndex (patterns this1) = [4; 0; 0; 0; 0; 0; 0; 0; 0; 0; 0]%nat
  /\ mathSimplifier this1 (Some e) = (Normal tt, loaded, Some e)
  /\ option_map doc (snd (mathSimplifier loaded (Some e)))
     = Some [js "x = \begin{array}{cc|c}\end{array} y"].
Proof.
  cbv zeta. split; [apply rules_intact_mathSimplifier, rules_intact_loaded |].
  split.
  { constructor; simpl.
    - discriminate.
    - repeat constructor. apply has_no_LF_sound. reflexivity.
    - reflexivity. }
  repeat split; vm_compute; reflexivity.
Qed.

(** C9 fails on the code in its insertion. The array case never throws,
    for any word and any editor, the count of repeat being guarded, where
    the expression of the earlier catalog throws on arr0; and a first run
    on arr0 inserts the array environment with the empty column
    specification. But with the rule list as that run has left it, a run
    on the same editor state completes without inserting anything: arr0
    stays in place. The defect is the one of C1, a lastIndex kept between
    runs by the g flag. *)
Theorem arr0_skipped_after_match :
  let e := mkEditor [js "arr0"] (mkPos 0 4) [] in
  let run1 := mathSimplifier loaded (Some e) in
  let this1 := snd (fst run1) in
  (forall cp w ed, rule cp 0 w ed <> RangeError)
  /\ arr_newWord_earlier (js "arr0") = RangeError
  /\ fst (fst run1) = Normal tt
  /\ option_map doc (snd run1) = Some [js "\begin{array}{}\end{array}"]
  /\ rules_intact this1
  /\ valid e
  /\ wordBefore e = Some (js "arr0")
  /\ mathSimplifier this1 (Some e) = (Normal tt, loaded, Some e).
Proof.
  cbv zeta.
  split; [intros cp w ed; rewrite rule_table; discriminate |].
  split; [reflexivity |]. split; [reflexivity |]. split; [reflexivity |].
  split; [apply rules_intact_mathSimplifier, rules_intact_loaded |].
  split.
  { constructor; simpl.
    - discriminate.
    - repeat constructor. apply has_no_LF_sound. reflexivity.
    - reflexivity. }
  split; vm_compute; reflexivity.
Qed.

(** C8 fails on the code. With the rule list as one expansion of \prg:py
    has left it, intact but with lastIndex 7 in the pattern of that rule, a
    valid editor whose word before the cursor is \prg:py gets no call: no
    fence is inserted and the cursor stays where it is. The defect is the
    one of C1, a lastIndex kept between runs by the g flag; on a rule list
    without such a lastIndex the word is replaced by the fence of three
    lines tagged python, with the cursor on the empty middle line. *)
Theorem prg_py_skipped_after_match :
  let this1 :=
    snd (fst (mathSimplifier loaded
                (Some (mkEditor [js "\prg:py"] (mkPos 0 7) [])))) in
  let e := mkEditor [js "x \prg:py tail"] (mkPos 0 9) [] in
  rules_intact this1
  /\ valid e
  /\ wordBefore e = Some (js "\prg:py")
  /\ map lastIndex (patterns this1) = [0; 0; 0; 0; 0; 7; 0; 0; 0; 0; 0]%nat
  /\ mathSimplifier this1 (Some e) = (Normal tt, loaded, Some e)
  /\ option_map doc (snd (mathSimplifier loaded (Some e)))
     = Some [js "x ```python"; []; js "``` tail"]
  /\ option_map cursor (snd (mathSimplifier loaded (Some e)))
     = Some (mkPos 1 0).
Proof.
  cbv zeta. split; [apply rules_intact_mathSimplifier, rules_intact_loaded |].
  split.
  { constructor; simpl.
    - discriminate.
    - repeat constructor. apply has_no_LF_sound. reflexivity.
    - reflexivity. }
  repeat split; vm_compute; reflexivity.
Qed.

(** C4 fails on the code. For the word \defn the 5 characters before the
    cursor are replaced by \stackrel{}{} as claimed, but the column passed
    to setCursor is counted back from the cursor read before the
    replacement: with the word at columns 11 to 16 the cursor is set to
    column 8, three columns before the inserted text, and not to column 21
    between its first pair of braces. *)
Theorem defn_cursor_before_insertion :
  let e := mkEditor [js "abcdefghij \defn"] (mkPos 0 16) [] in
  let run := mathSimplifier loaded (Some e) in
  fst (fst run) = Normal tt
  /\ option_map calls (snd run)
     = Some [ ReplaceRange (js "\stackrel{}{}") (mkPos 0 11) (mkPos 0 16);
              SetCursor (mkPos 0 8) ]
  /\ option_map doc (snd run) = Some [js "abcdefghij \stackrel{}{}"]
  /\ option_map cursor (snd run) = Some (mkPos 0 8)
  /\ option_map cursor (snd run) <> Some (mkPos 0 (11 + 10)).
Proof. vm_compute. repeat split. discriminate. Qed.

(** C10. When exactly one rule fires on the word before the cursor, the
    expansion step changes only the span of that rule's consumed length
    that ends at the cursor: the lines above the cursor line are unchanged,
    so is the cursor line before the span, and the text that followed the
    cursor follows the inserted text unchanged. *)
Theorem one_rule_frame (this : t) (e : Editor) (w : str) (i : nat) :
  rules_intact this ->
  valid e ->
  wordBefore e = Some w ->
  fired (patterns this) 0 w = [i] ->
  exists this' e' before consumed,
    mathSimplifier this (Some e) = (Normal tt, this', Some e')
    /\ upToCursor e = before ++ consumed
    /\ Z.of_nat (length consumed) = literalLength i
    /\ getValue e = before ++ consumed ++ afterCursor e
    /\ getValue e' = before ++ expansion i w ++ afterCursor e
    /\ firstn (cursorLine e) (doc e') = firstn (cursorLine e) (doc e)
    /\ firstn (cursorCol e - Z.to_nat (literalLength i))
         (lineText (doc e') (line (cursor e)))
       = firstn (cursorCol e - Z.to_nat (literalLength i)) (cursorText e).
Proof.
  intros Hi V W F.
  assert (Hin : In i (fired (patterns this) 0 w)) by (rewrite F; now left).
  destruct (@fired_literalLength this w i Hi Hin) as [I K].
  pose proof (literalLength_range i) as R.
  pose proof (wordBefore_length V W) as Hw.
  pose proof (cursorCol_le V) as Hc.
  pose proof (cursorLine_lt V) as Hl.
  pose proof (cursorText_no_LF V) as N.
  assert (Hne : w <> []) by (destruct w; [simpl in K; lia | discriminate]).
  set (k := Z.to_nat (literalLength i)) in *.
  set (head := firstn (cursorCol e - k) (cursorText e)).
  set (e' := fold_left exec (rule_calls i w (cursor e)) e).
  assert (D : doc e'
              = firstn (cursorLine e) (doc e)
                ++ lines_of (head ++ expansion i w
                             ++ skipn (cursorCol e) (cursorText e))
                ++ skipn (S (cursorLine e)) (doc e))
    by (apply (doc_after_rule V W I K)).
  assert (LA : length (firstn (cursorLine e) (doc e)) = cursorLine e)
    by (apply firstn_length_le; lia).
  assert (LH : length head = (cursorCol e - k)%nat)
    by (apply firstn_length_le; lia).
  assert (S1 : firstn (cursorCol e) (cursorText e)
               = head ++ skipn (cursorCol e - k)
                           (firstn (cursorCol e) (cursorText e))).
  { rewrite <- (firstn_skipn (cursorCol e - k)
                  (firstn (cursorCol e) (cursorText e))) at 1.
    rewrite firstn_firstn. unfold head. do 2 f_equal. lia. }
  exists (mkPlugin (statusBarItem this) (tested w (patterns this))), e',
    (above (firstn (cursorLine e) (doc e)) ++ head),
    (skipn (cursorCol e - k) (firstn (cursorCol e) (cursorText e))).
  split; [apply (mathSimplifier_one_rule this e W Hne F) |].
  assert (U : upToCursor e
              = (above (firstn (cursorLine e) (doc e)) ++ head)
                ++ skipn (cursorCol e - k)
                     (firstn (cursorCol e) (cursorText e))).
  { unfold upToCursor. rewrite S1 at 1. now rewrite app_assoc. }
  split; [exact U |].
  split.
  { rewrite length_skipn, firstn_length_le by exact Hc. unfold k in *. lia. }
  split.
  { rewrite (getValue_cursor V), U. now rewrite <- !app_assoc. }
  split.
  { unfold getValue. rewrite D.
    rewrite join_lines_sandwich by apply lines_of_nonempty.
    rewrite join_lines_of. unfold afterCursor.
    now rewrite <- !app_assoc. }
  split.
  { rewrite D. rewrite <- LA at 1. apply firstn_prefix_length. }
  unfold lineText. fold (cursorLine e). rewrite D.
  rewrite <- LA at 1.
  rewrite nth_at_prefix by apply lines_of_nonempty.
  rewrite lines_of_app by (unfold head; apply no_LF_firstn, N).
  cbn [hd]. rewrite <- LH. rewrite firstn_prefix_length.
  reflexivity.
Qed.

Lemma one_rule_frame_witness :
  exists this' e' before consumed,
    mathSimplifier loaded
      (Some (mkEditor [js "top"; js "say \sys now"; js "end"] (mkPos 1 8) []))
    = (Normal tt, this', Some e')
    /\ Z.of_nat (length consumed) = 4%Z
    /\ js "top" ++ LF :: js "say \sys now" ++ LF :: js "end"
       = before ++ consumed ++ js " now" ++ LF :: js "end"
    /\ getValue e' = before ++ js "\begin{cases}\end{cases}"
                     ++ js " now" ++ LF :: js "end".
Proof.
  destruct (@one_rule_frame loaded
              (mkEditor [js "top"; js "say \sys now"; js "end"] (mkPos 1 8) [])
              (js "\sys") 9)
    as (this' & e' & before & consumed & H & _ & K & G & G' & _).
  - exact rules_intact_loaded.
  - constructor; simpl.
    + discriminate.
    + repeat constructor; apply has_no_LF_sound; reflexivity.
    + reflexivity.
  - reflexivity.
  - reflexivity.
  - exists this', e', before, consumed.
    split; [exact H |]. split; [exact K |]. split; [exact G | exact G'].
Defined.

(* ================================================================= *)
(** ** Further properties of the line counter *)

Lemma adjusted_cons (x : str) (l : list str) :
  l <> [] -> adjusted (x :: l) = (1 + adjusted l)%Z.
Proof.
  intros H. destruct l as [|y l]; [congruence |].
  unfold adjusted. change (last (x :: y :: l) [LF]) with (last (y :: l) [LF]).
  destruct (last (y :: l) [LF]); simpl length; lia.
Qed.

Lemma adjusted_single (x : str) :
  adjusted [x] = match x with [] => 0%Z | _ :: _ => 1%Z end.
Proof. unfold adjusted. simpl. now destruct x. Qed.

Lemma rev_cons_not_nil (A : Type) (c : A) (cur : list A) :
  rev (c :: cur) <> [].
Proof. simpl. intros H. now apply app_eq_nil in H. Qed.

(** The count of the segments read from [s] with [cur] pending: at most
    the characters at hand, and at least one if there is any. *)
Lemma adjusted_split_bounds (n : nat) :
  forall s cur,
    (length s <= n)%nat ->
    (adjusted (split_lines_from cur s) <= Z.of_nat (length cur + length s))%Z
    /\ ((1 <= length cur + length s)%nat ->
        (1 <= adjusted (split_lines_from cur s))%Z).
Proof.
  induction n as [|n IH]; intros s cur Hn.
  - destruct s; [| simpl in Hn; lia]. simpl. rewrite adjusted_single.
    destruct cur as [|c cur].
    + simpl. lia.
    + pose proof (@rev_cons_not_nil _ c cur).
      destruct (rev (c :: cur)); [congruence | simpl; lia].
  - destruct s as [|c s].
    + apply (IH [] cur). simpl. lia.
    + simpl in Hn.
      assert (Cut : forall r, (length r <= n)%nat ->
                (length r <= length s)%nat ->
                (adjusted (rev cur :: split_lines_from [] r)
                 <= Z.of_nat (length cur + length (c :: s)))%Z
                /\ (1 <= adjusted (rev cur :: split_lines_from [] r))%Z).
      { intros r Hr Hrs.
        rewrite adjusted_cons
          by (eapply split_lines_from_nonempty; apply le_n).
        destruct (IH r [] Hr) as [Hu _].
        destruct (Z.le_gt_cases 1 (adjusted (split_lines_from [] r))).
        - simpl length in *. lia.
        - assert (0 <= adjusted (split_lines_from [] r))%Z.
          { pose proof (@split_lines_from_nonempty (length r) r [] (le_n _)).
            unfold adjusted.
            destruct (split_lines_from [] r) as [|y l]; [congruence |].
            destruct (last (y :: l) [LF]); simpl length; lia. }
          simpl length in *. lia. }
      assert (Push : (adjusted (split_lines_from (c :: cur) s)
                      <= Z.of_nat (length cur + length (c :: s)))%Z
                     /\ (1 <= adjusted (split_lines_from (c :: cur) s))%Z).
      { destruct (IH s (c :: cur)) as [Hu Hl]; [lia |].
        simpl length in *. split; [lia | apply Hl; lia]. }
      simpl split_lines_from.
      destruct (Ascii.eqb c LF).
      * destruct (Cut s) as [Hu Hl]; [lia | lia |]. split; [exact Hu | auto].
      * destruct s as [|d s'].
        -- destruct Push as [Hu Hl]. split; [exact Hu | auto].
        -- destruct (Ascii.eqb c "$" && Ascii.eqb d "$").
           ++ destruct (Cut s') as [Hu Hl]; simpl in *; [lia | lia |].
              split; [exact Hu | auto].
           ++ destruct Push as [Hu Hl]. split; [exact Hu | auto].
Qed.

Lemma lineCount_spec_bounds (T : str) :
  T <> [] -> (1 <= lineCount_spec T <= Z.of_nat (length T))%Z.
Proof.
  intros H.
  destruct (@adjusted_split_bounds (length T) T [] (le_n _)) as [Hu Hl].
  change (lineCount_spec T) with (adjusted (split_lines_from [] T)).
  simpl length in *. split; [| exact Hu].
  apply Hl. destruct T; [congruence | simpl; lia].
Qed.

(** X1. Whenever the line counter shows a count, for a non-empty text that
    is, the count is at least 1 and at most the number of characters of the
    text: the display never reads Lines: 0. *)
Theorem displayed_count_bounds (this : t) (sb : StatusBar) (T : str) :
  statusBarItem this = Some sb ->
  T <> [] ->
  exists n : Z,
    displayed (updateLineCount this (Some T))
    = Some (js "Lines: " ++ toString (Fin n))
    /\ (1 <= n <= Z.of_nat (length T))%Z.
Proof.
  intros Hsb HT. exists (lineCount_spec T). split.
  - rewrite updateLineCount_shown by exact HT.
    unfold displayed, setText, show. simpl. now rewrite Hsb.
  - now apply lineCount_spec_bounds.
Qed.

Lemma displayed_count_bounds_witness :
  exists n : Z,
    displayed (updateLineCount loaded (Some (js "$$$$")))
    = Some (js "Lines: " ++ toString (Fin n))
    /\ (1 <= n <= 4)%Z.
Proof.
  apply (@displayed_count_bounds loaded (mkStatusBar true []) (js "$$$$")).
  - reflexivity.
  - discriminate.
Defined.

Lemma has_no_dollar_sound (s : str) :
  has_no_dollar s = true -> ~ In "$"%char s.
Proof.
  unfold has_no_dollar. rewrite forallb_forall. intros H K.
  apply H in K. now rewrite Ascii.eqb_refl in K.
Qed.

Lemma displayed_hide_empty (this : t) :
  displayed (updateLineCount this (Some [])) = None.
Proof. apply displayed_hide. Qed.

Lemma last_default (A : Type) (l : list A) (d d' : A) :
  l <> [] -> last l d = last l d'.
Proof.
  induction l as [|x l IH]; intros H; [congruence |].
  destruct l as [|y l]; [reflexivity |].
  change (last (y :: l) d = last (y :: l) d'). apply IH. discriminate.
Qed.

Lemma last_cons_default (A : Type) (c : A) (r : list A) (d : A) :
  last (c :: r) d = last r c.
Proof.
  destruct r as [|y r]; [reflexivity |].
  change (last (y :: r) d = last (y :: r) c). apply last_default. discriminate.
Qed.

(** Without dollar signs only line feeds cut: the count of the segments
    read from [s] with [cur] pending. *)
Lemma adjusted_split_no_dollar (s : str) :
  ~ In "$"%char s ->
  forall cur,
    adjusted (split_lines_from cur s)
    = (Z.of_nat (count_occ ascii_dec s LF)
       + (if Ascii.eqb
               (last s (match cur with [] => LF | _ :: _ => "x"%char end)) LF
          then 0 else 1))%Z.
Proof.
  induction s as [|c s IH]; intros Hd cur.
  - simpl. rewrite adjusted_single. destruct cur as [|c cur].
    + reflexivity.
    + pose proof (@rev_cons_not_nil _ c cur).
      destruct (rev (c :: cur)); [congruence | reflexivity].
  - assert (Hc : c <> "$"%char) by (intros ->; apply Hd; now left).
    assert (Hs : ~ In "$"%char s) by (intros K; apply Hd; now right).
    rewrite last_cons_default.
    simpl split_lines_from.
    destruct (Ascii.eqb_spec c LF) as [->|Hn].
    + rewrite adjusted_cons
        by (eapply split_lines_from_nonempty; apply le_n).
      rewrite (IH Hs []).
      cbn [count_occ]. destruct (ascii_dec LF LF); [| congruence]. lia.
    + assert (E : split_lines_from (c :: cur) s
                  = match s with
                    | [] => split_lines_from (c :: cur) s
                    | d :: r' =>
                        if Ascii.eqb c "$" && Ascii.eqb d "$"
                        then rev cur :: split_lines_from [] r'
                        else split_lines_from (c :: cur) s
                    end).
      { destruct s as [|d r']; [reflexivity |].
        destruct (Ascii.eqb_spec c "$"); [congruence | reflexivity]. }
      rewrite <- E, (IH Hs (c :: cur)).
      cbn [count_occ]. destruct (ascii_dec c LF) as [->|_]; [congruence |].
      destruct s as [|d r'].
      * simpl. destruct (Ascii.eqb_spec c LF); [congruence | reflexivity].
      * rewrite (@last_default _ (d :: r') "x"%char c) by discriminate.
        reflexivity.
Qed.

(** X2. For a non-empty text without dollar signs the displayed count is
    the usual number of lines: one per line feed, plus one when characters
    follow the last line feed. *)
Theorem displayed_count_plain_text (this : t) (sb : StatusBar) (T : str) :
  statusBarItem this = Some sb ->
  T <> [] ->
  ~ In "$"%char T ->
  displayed (updateLineCount this (Some T))
  = Some (js "Lines: " ++ toString (Fin (editor_lines T))).
Proof.
  intros Hsb HT Hd.
  rewrite updateLineCount_shown by exact HT.
  unfold displayed, setText, show. simpl. rewrite Hsb. simpl.
  do 3 f_equal.
  change (lineCount_spec T) with (adjusted (split_lines_from [] T)).
  now rewrite adjusted_split_no_dollar.
Qed.

Lemma displayed_count_plain_text_witness :
  displayed (updateLineCount loaded
               (Some (js "one" ++ LF :: LF :: js "three" ++ [LF])))
  = Some (js "Lines: 3").
Proof.
  apply (@displayed_count_plain_text loaded (mkStatusBar true [])
           (js "one" ++ LF :: LF :: js "three" ++ [LF])).
  - reflexivity.
  - discriminate.
  - apply has_no_dollar_sound. reflexivity.
Defined.

(** X3. The display is a function of the last content alone: whatever an
    earlier call showed or hid, after a call the display is what that call
    gives on its own, and the rule list is what it was. *)
Theorem updateLineCount_last_call_wins (this : t) (c1 c2 : option str) :
  displayed (updateLineCount (updateLineCount this c1) c2)
  = displayed (updateLineCount this c2)
  /\ patterns (updateLineCount (updateLineCount this c1) c2) = patterns this.
Proof.
  split.
  - destruct c2 as [[|x T]|].
    + rewrite !displayed_hide_empty. reflexivity.
    + rewrite !updateLineCount_shown by discriminate.
      unfold displayed, setText, show. simpl.
      destruct c1 as [[|y U]|]; simpl;
        destruct (statusBarItem this); reflexivity.
    + change (updateLineCount ?p None) with (hide p).
      now rewrite !displayed_hide.
  - destruct c1 as [[|y U]|], c2 as [[|x T]|]; reflexivity.
Qed.

(* ================================================================= *)
(** ** Further properties of the trigger expander *)

(* ----------------------------------------------------------------- *)
(** *** What a run leaves in the plugin *)

Lemma same_rule_refl (ps : list RegExp) : Forall2 same_rule ps ps.
Proof. induction ps; constructor; unfold same_rule; auto. Qed.

Lemma same_rule_global (ps : list RegExp) :
  Forall2 same_rule ps initial_patterns ->
  Forall (fun r => global r = true) ps.
Proof.
  assert (G0 : Forall (fun r => global r = true) initial_patterns)
    by (simpl; repeat constructor).
  revert G0. generalize initial_patterns as ps0.
  intros ps0 G0 H. induction H as [|r r0 ps ps0 (_ & Hg & _) _ IH].
  - constructor.
  - inversion G0; subst. constructor; [congruence | auto].
Qed.

(** X4. A run of the expander never throws, never touches the status bar
    item, and changes nothing of the rule list but the lastIndex of its
    regular expressions; without an editor it changes nothing at all. *)
Theorem expander_keeps_plugin (this : t) (editor : option Editor) :
  exists this' editor',
    mathSimplifier this editor = (Normal tt, this', editor')
    /\ statusBarItem this' = statusBarItem this
    /\ Forall2 same_rule (patterns this') (patterns this)
    /\ (editor = None -> this' = this /\ editor' = None).
Proof.
  assert (Quiet : forall e,
            truthy (wordBefore e) = false ->
            exists this' editor',
              mathSimplifier this (Some e) = (Normal tt, this', editor')
              /\ statusBarItem this' = statusBarItem this
              /\ Forall2 same_rule (patterns this') (patterns this)
              /\ (Some e = None -> this' = this /\ editor' = None)).
  { intros e H. exists this, (Some e).
    split; [apply mathSimplifier_falsy, H |].
    split; [reflexivity |].
    split; [apply same_rule_refl | discriminate]. }
  destruct editor as [e|].
  - destruct (wordBefore e) as [[|c w]|] eqn:W.
    + apply Quiet. rewrite W. reflexivity.
    + do 2 eexists.
      split; [apply (mathSimplifier_truthy this e W); discriminate |].
      split; [reflexivity |].
      split; [apply tested_same, same_rule_refl | discriminate].
    + apply Quiet. rewrite W. reflexivity.
  - exists this, None.
    split; [reflexivity |]. split; [reflexivity |].
    split; [apply same_rule_refl | auto].
Qed.

Lemma search_bound (ic : bool) (p : list Atom) :
  forall s pos i,
    search ic p s pos = Some i ->
    (pos <= i /\ i + length p <= pos + length s)%nat.
Proof.
  induction s as [|c s IH]; intros pos i; rewrite search_eq;
    destruct (match_here ic p _) eqn:M; intros H.
  - inversion H; subst. apply match_here_length in M. lia.
  - discriminate.
  - inversion H; subst. apply match_here_length in M. lia.
  - apply IH in H. simpl. lia.
Qed.

(** After a test of a global regular expression on [w], lastIndex is within
    [w], and it is 0 when the test failed. *)
Lemma test_lastIndex (r : RegExp) (w : str) :
  global r = true ->
  (lastIndex (snd (test r w)) <= length w)%nat
  /\ (fst (test r w) = false -> lastIndex (snd (test r w)) = 0%nat).
Proof.
  intros G. unfold test. rewrite G.
  destruct (length w <? lastIndex r)%nat eqn:L; simpl.
  - split; [lia | reflexivity].
  - apply Nat.ltb_ge in L.
    destruct (search _ _ _ _) as [i|] eqn:E; simpl.
    + apply search_bound in E. rewrite length_skipn in E.
      split; [lia | discriminate].
    + split; [lia | reflexivity].
Qed.

Lemma fired_nil (w : str) (ps : list RegExp) :
  forall index,
    fired ps index w = [] -> Forall (fun r => fst (test r w) = false) ps.
Proof.
  induction ps as [|r ps IH]; intros index; simpl; [constructor |].
  destruct (fst (test r w)) eqn:T; [discriminate |].
  intros H. constructor; [exact T | exact (IH _ H)].
Qed.

Lemma tested_lastIndex (w : str) (ps : list RegExp) :
  Forall (fun r => global r = true) ps ->
  Forall (fun r => lastIndex r <= length w)%nat (tested w ps).
Proof.
  induction 1 as [|r ps G _ IH]; simpl; constructor; [| exact IH].
  apply (test_lastIndex r w G).
Qed.

Lemma tested_reset (w : str) (ps : list RegExp) :
  Forall (fun r => global r = true) ps ->
  Forall (fun r => fst (test r w) = false) ps ->
  Forall (fun r => lastIndex r = 0%nat) (tested w ps).
Proof.
  induction 1 as [|r ps G _ IH]; intros F; simpl; [constructor |].
  inversion F; subst. constructor; [| auto].
  now apply (test_lastIndex r w G).
Qed.

Lemma ready_of_zero (this : t) (w : str) :
  Forall (fun r => lastIndex r = 0%nat) (patterns this) -> ready this w.
Proof.
  unfold ready. apply Forall_impl. auto.
Qed.

(** X5. After a run on a non-empty word every lastIndex lies within the
    word; and a run in which no rule fires leaves the editor as it was and
    every lastIndex at 0, so that the rule list is ready for any word: a
    lastIndex left over by a match is cleared by the next run on a word
    that triggers nothing. *)
Theorem silent_run_rearms (this : t) (e : Editor) (w : str) :
  rules_intact this ->
  wordBefore e = Some w ->
  w <> [] ->
  exists this' e',
    mathSimplifier this (Some e) = (Normal tt, this', Some e')
    /\ Forall (fun r => lastIndex r <= length w)%nat (patterns this')
    /\ (fired (patterns this) 0 w = [] ->
        e' = e
        /\ Forall (fun r => lastIndex r = 0%nat) (patterns this')
        /\ forall w', ready this' w').
Proof.
  intros Hi W Hne.
  pose proof (same_rule_global Hi) as G.
  do 2 eexists.
  split; [apply (mathSimplifier_truthy this e W Hne) |].
  split; [apply tested_lastIndex, G |].
  intros F.
  assert (Z0 : Forall (fun r => lastIndex r = 0%nat)
                 (tested w (patterns this)))
    by (apply tested_reset; [exact G | eapply fired_nil; exact F]).
  split; [| split; [exact Z0 |]].
  - unfold fired_calls. rewrite F. reflexivity.
  - intros w'. apply ready_of_zero. exact Z0.
Qed.

(** A plugin whose array pattern is left at lastIndex 4 by a match: a run
    on the word hello clears it. *)
Lemma silent_run_rearms_witness :
  exists this' e',
    mathSimplifier
      (mkPlugin None (set_lastIndex (gi (lit "arr" ++ [Digit])) 4
                      :: tl initial_patterns))
      (Some (mkEditor [js "hello"] (mkPos 0 5) []))
    = (Normal tt, this', Some e')
    /\ e' = mkEditor [js "hello"] (mkPos 0 5) []
    /\ Forall (fun r => lastIndex r = 0%nat) (patterns this').
Proof.
  destruct (@silent_run_rearms
              (mkPlugin None (set_lastIndex (gi (lit "arr" ++ [Digit])) 4
                              :: tl initial_patterns))
              (mkEditor [js "hello"] (mkPos 0 5) []) (js "hello"))
    as (this' & e' & H & _ & K).
  - unfold rules_intact, same_rule. simpl. repeat constructor.
  - reflexivity.
  - discriminate.
  - destruct (K eq_refl) as (E & Z0 & _).
    exists this', e'. split; [exact H |]. split; [exact E | exact Z0].
Defined.

Lemma matches_same (r r0 : RegExp) (w : str) :
  same_rule r r0 -> matches r w = matches r0 w.
Proof. intros (Hs & _ & Hi). unfold matches. now rewrite Hs, Hi. Qed.

(** A global regular expression that has just matched a word too short to
    hold its pattern twice does not match it again. *)
Lemma second_test_fails (r : RegExp) (w : str) :
  global r = true ->
  (matches r w = true ->
   lastIndex r = 0%nat /\ (length w < 2 * length (source r))%nat) ->
  fst (test (snd (test r w)) w) = false.
Proof.
  intros G H.
  destruct (matches r w) eqn:M.
  - destruct (H eq_refl) as [L0 Hlen].
    unfold matches in M.
    destruct (search (ignoreCase r) (source r) w 0) as [j|] eqn:E;
      [| discriminate].
    assert (T : snd (test r w) = set_lastIndex r (j + length (source r))).
    { unfold test. rewrite G, L0. simpl. rewrite E. reflexivity. }
    rewrite T. unfold test. cbn [global set_lastIndex lastIndex source ignoreCase].
    rewrite G.
    destruct (length w <? j + length (source r))%nat eqn:L; [reflexivity |].
    apply Nat.ltb_ge in L.
    destruct (search (ignoreCase r) (source r)
                (skipn (j + length (source r)) w) (j + length (source r)))
      as [i|] eqn:E2; [| reflexivity].
    apply search_bound in E2. rewrite length_skipn in E2. lia.
  - rewrite (test_no_match r w M), G. simpl.
    rewrite test_no_match; [reflexivity |].
    unfold matches in *. exact M.
Qed.

Lemma tested_twice (w : str) (ps ps0 : list RegExp) :
  Forall2 same_rule ps ps0 ->
  Forall (fun r => global r = true) ps ->
  Forall (fun r => matches r w = true -> lastIndex r = 0%nat) ps ->
  forallb (fun r => negb (matches r w)
                    || (length w <? 2 * length (source r))%nat) ps0 = true ->
  Forall (fun r => fst (test r w) = false) (tested w ps).
Proof.
  induction 1 as [|r r0 ps ps0 S _ IH]; intros G R Hb; simpl;
    [constructor |].
  inversion G; subst. inversion R; subst.
  simpl in Hb. apply andb_true_iff in Hb. destruct Hb as [Hb Hbs].
  constructor; [| auto].
  apply second_test_fails; [assumption |].
  intros M. split; [auto |].
  rewrite (matches_same w S) in M. rewrite M in Hb. simpl in Hb.
  apply Nat.ltb_lt in Hb. destruct S as (Hs & _). now rewrite Hs.
Qed.

Lemma tested_global (w : str) (ps : list RegExp) :
  Forall (fun r => global r = true) ps ->
  Forall (fun r => global r = true) (tested w ps).
Proof.
  induction 1 as [|r ps G _ IH]; simpl; constructor; [| exact IH].
  destruct (test_source r w) as (_ & Eg & _). congruence.
Qed.

(** X6. After a run on a word that is too short to hold one of its
    patterns twice, the next run on an identical editor state does
    nothing: the first run makes the calls of every rule whose pattern
    occurs in the word, the second one leaves the editor as it is and
    every lastIndex at 0, so that the run after it fires again. *)
Theorem repeated_trigger_is_swallowed (this : t) (e : Editor) (w : str) :
  rules_intact this ->
  ready this w ->
  wordBefore e = Some w ->
  w <> [] ->
  holds_once w = true ->
  exists this1 e1 this2,
    mathSimplifier this (Some e) = (Normal tt, this1, Some e1)
    /\ calls e1
       = calls e
         ++ flat_map (fun i => rule_calls i w (cursor e))
              (matching initial_patterns 0 w)
    /\ mathSimplifier this1 (Some e) = (Normal tt, this2, Some e)
    /\ Forall (fun r => lastIndex r = 0%nat) (patterns this2).
Proof.
  intros Hi Hr W Hne Ho.
  pose proof (same_rule_global Hi) as G.
  assert (F2 : Forall (fun r => fst (test r w) = false)
                 (tested w (patterns this)))
    by (eapply tested_twice; eassumption).
  exists (mkPlugin (statusBarItem this) (tested w (patterns this))).
  do 2 eexists.
  split; [apply (mathSimplifier_truthy this e W Hne) |].
  split.
  { rewrite calls_fold. unfold fired_calls, getCursor.
    now rewrite (fired_initial Hi Hr). }
  split.
  { rewrite (mathSimplifier_truthy _ e W Hne). cbn [patterns statusBarItem].
    unfold fired_calls.
    replace (fired (tested w (patterns this)) 0 w) with (@nil nat).
    - reflexivity.
    - symmetry. clear - F2. generalize 0%nat.
      induction F2 as [|r ps T _ IH]; intros n; simpl; [reflexivity |].
      rewrite T. apply IH. }
  cbn [patterns]. apply tested_reset; [apply tested_global, G | exact F2].
Qed.

Lemma repeated_trigger_is_swallowed_witness :
  exists this1 e1 this2,
    mathSimplifier loaded (Some (mkEditor [js "\prg:java"] (mkPos 0 9) []))
    = (Normal tt, this1, Some e1)
    /\ calls e1
       = [ ReplaceRange (fence "java") (mkPos 0 0) (mkPos 0 9);
           SetCursor (mkPos 1 0) ]
    /\ mathSimplifier this1 (Some (mkEditor [js "\prg:java"] (mkPos 0 9) []))
       = (Normal tt, this2, Some (mkEditor [js "\prg:java"] (mkPos 0 9) []))
    /\ Forall (fun r => lastIndex r = 0%nat) (patterns this2).
Proof.
  apply (@repeated_trigger_is_swallowed loaded
           (mkEditor [js "\prg:java"] (mkPos 0 9) []) (js "\prg:java")).
  - exact rules_intact_loaded.
  - apply ready_loaded.
  - reflexivity.
  - discriminate.
  - reflexivity.
Defined.

(* ----------------------------------------------------------------- *)
(** *** Which characters a rule consumes *)

(** X7. The span a firing rule replaces is counted back from the cursor,
    not taken from where its pattern matched: with one rule firing on the
    word [w], the last characters of [w], as many as the rule consumes,
    are replaced by the expansion, and the characters of [w] before them
    stay in the line in front of the inserted text. *)
Theorem consumed_is_word_suffix (this : t) (e : Editor) (w : str) (i : nat) :
  rules_intact this ->
  valid e ->
  wordBefore e = Some w ->
  fired (patterns this) 0 w = [i] ->
  exists this' e' kept gone,
    mathSimplifier this (Some e) = (Normal tt, this', Some e')
    /\ w = kept ++ gone
    /\ Z.of_nat (length gone) = literalLength i
    /\ firstn (cursorCol e) (cursorText e)
       = firstn (cursorCol e - length w) (cursorText e) ++ kept ++ gone
    /\ doc e'
       = firstn (cursorLine e) (doc e)
         ++ lines_of ((firstn (cursorCol e - length w) (cursorText e)
                       ++ kept)
                      ++ expansion i w
                      ++ skipn (cursorCol e) (cursorText e))
         ++ skipn (S (cursorLine e)) (doc e).
Proof.
  intros Hi V W F.
  assert (Hin : In i (fired (patterns this) 0 w)) by (rewrite F; now left).
  destruct (@fired_literalLength this w i Hi Hin) as [I K].
  pose proof (literalLength_range i) as R.
  pose proof (wordBefore_length V W) as Hw.
  pose proof (cursorCol_le V) as Hc.
  assert (Hne : w <> []) by (destruct w; [simpl in K; lia | discriminate]).
  set (k := Z.to_nat (literalLength i)) in *.
  set (pre := firstn (cursorCol e - length w) (cursorText e)).
  assert (LP : length pre = (cursorCol e - length w)%nat)
    by (apply firstn_length_le; lia).
  pose proof (consumed_is_word V W) as CW. fold pre in CW.
  assert (Head : firstn (cursorCol e - k) (cursorText e)
                 = pre ++ firstn (length w - k) w).
  { replace (firstn (cursorCol e - k) (cursorText e))
      with (firstn (cursorCol e - k)
              (firstn (cursorCol e) (cursorText e)))
      by (rewrite firstn_firstn; f_equal; lia).
    rewrite CW, firstn_app, LP.
    rewrite firstn_all2 by lia.
    f_equal. f_equal. lia. }
  exists (mkPlugin (statusBarItem this) (tested w (patterns this))).
  exists (fold_left exec (rule_calls i w (cursor e)) e).
  exists (firstn (length w - k) w), (skipn (length w - k) w).
  split; [apply (mathSimplifier_one_rule this e W Hne F) |].
  split; [symmetry; apply firstn_skipn |].
  split; [rewrite length_skipn; unfold k in *; lia |].
  split; [rewrite firstn_skipn; exact CW |].
  rewrite (doc_after_rule V W I K). fold k. now rewrite Head.
Qed.

(** The array pattern occurs at the start of a longer word: the three
    characters arr stay, the four after them go. *)
Lemma consumed_is_word_suffix_witness :
  exists this' e' kept gone,
    mathSimplifier loaded (Some (mkEditor [js "arr3xyz"] (mkPos 0 7) []))
    = (Normal tt, this', Some e')
    /\ js "arr3xyz" = kept ++ gone
    /\ Z.of_nat (length gone) = 4%Z
    /\ doc e' = lines_of (kept ++ js "\begin{array}{}\end{array}").
Proof.
  destruct (@consumed_is_word_suffix loaded
              (mkEditor [js "arr3xyz"] (mkPos 0 7) []) (js "arr3xyz") 0)
    as (this' & e' & kept & gone & H & S & L & _ & D).
  - exact rules_intact_loaded.
  - constructor; simpl.
    + discriminate.
    + repeat constructor. apply has_no_LF_sound. reflexivity.
    + reflexivity.
  - reflexivity.
  - reflexivity.
  - exists this', e', kept, gone.
    split; [exact H |]. split; [exact S |]. split; [exact L |].
    rewrite D. simpl. now rewrite !app_nil_r.
Defined.

(* ----------------------------------------------------------------- *)
(** *** The word before the cursor *)

Lemma pop_some (A : Type) (l : list A) : l <> [] -> exists x, pop l = Some x.
Proof.
  induction l as [|x l IH]; intros H; [congruence |].
  destruct l as [|y l]; [now exists x |].
  apply IH. discriminate.
Qed.

Lemma ends_with_space_cons (c : ascii) (s : str) :
  ends_with_space s -> ends_with_space (c :: s).
Proof. intros (p & x & -> & H). now exists (c :: p), x. Qed.

Lemma ends_with_space_after (c : ascii) (s : str) :
  is_space c = true -> s = [] \/ ends_with_space s -> ends_with_space (c :: s).
Proof.
  intros H [-> | K]; [now exists [], c | now apply ends_with_space_cons].
Qed.

(** The last piece of the split holds no white space, and what is in front
    of it, if anything, ends with white space. *)
Lemma split_space_word :
  forall s cur w,
    no_space cur ->
    (pop (split_space_from cur s) = Some w ->
     (w = rev cur ++ s /\ no_space s)
     \/ (exists pre, s = pre ++ w /\ no_space w /\ ends_with_space pre))
    /\ (pop (skip_space s) = Some w ->
        exists pre, s = pre ++ w /\ no_space w
                    /\ (pre = [] \/ ends_with_space pre)).
Proof.
  induction s as [|c s IH]; intros cur w Hc; simpl.
  - split; intros H; inversion H; subst.
    + left. split; [now rewrite app_nil_r | constructor].
    + exists []. repeat split; [constructor | now left].
  - destruct (is_space c) eqn:Sp.
    + assert (K : pop (skip_space s) = Some w ->
                  exists pre, c :: s = pre ++ w /\ no_space w
                              /\ ends_with_space pre).
      { intros H. destruct (proj2 (IH [] w (Forall_nil _)) H)
          as (pre & -> & Hw & Hp).
        exists (c :: pre). repeat split; [exact Hw |].
        now apply ends_with_space_after. }
      split; intros H.
      * right. apply K.
        now rewrite pop_cons in H by apply (split_space_nonempty s []).
      * destruct (K H) as (pre & E & Hw & Hp).
        exists pre. repeat split; auto.
    + assert (Hc' : no_space (c :: cur)) by (constructor; assumption).
      split; intros H.
      * destruct (proj1 (IH (c :: cur) w Hc') H)
          as [[-> Hs] | (pre & -> & Hw & Hp)].
        -- left. split; [simpl; now rewrite <- app_assoc |].
           constructor; assumption.
        -- right. exists (c :: pre). repeat split; [exact Hw |].
           now apply ends_with_space_cons.
      * assert (H1 : no_space [c]) by (constructor; [assumption | constructor]).
        destruct (proj1 (IH [c] w H1) H)
          as [[-> Hs] | (pre & -> & Hw & Hp)].
        -- exists []. repeat split; [| now left].
           simpl. constructor; assumption.
        -- exists (c :: pre). repeat split; [exact Hw |].
           right. now apply ends_with_space_cons.
Qed.

(** X8. The expander always finds a word before the cursor: it is the
    longest stretch without white space that ends at the cursor, so it
    holds no white space, and the text of the line in front of it is empty
    or ends with white space. *)
Theorem word_before_cursor_shape (e : Editor) :
  exists w pre,
    wordBefore e = Some w
    /\ getRange e (mkPos (line (getCursor e)) 0) (getCursor e) = pre ++ w
    /\ no_space w
    /\ (pre = [] \/ ends_with_space pre).
Proof.
  unfold wordBefore.
  set (s := getRange e (mkPos (line (getCursor e)) 0) (getCursor e)).
  destruct (@pop_some _ (split_space s)) as [w Hw];
    [apply (split_space_nonempty s []) |].
  destruct (proj1 (@split_space_word s [] w (Forall_nil _)) Hw)
    as [[-> Hs] | (pre & E & Hn & Hp)].
  - exists s, []. repeat split; [exact Hw | exact Hs | now left].
  - exists w, pre. repeat split; [exact Hw | exact E | exact Hn | now right].
Qed.

(* ----------------------------------------------------------------- *)
(** *** Letter case *)

Lemma canonicalize_idem (c : ascii) :
  canonicalize (canonicalize c) = canonicalize c.
Proof. all_ascii c. Qed.

Lemma is_digit_canonicalize (c : ascii) :
  is_digit (canonicalize c) = is_digit c.
Proof. all_ascii c. Qed.

Lemma Number_canonicalize (c : ascii) :
  Number (Some (canonicalize c)) = Number (Some c).
Proof. all_ascii c. Qed.

Lemma atom_matches_canonicalize (a : Atom) (c : ascii) :
  atom_matches true a (canonicalize c) = atom_matches true a c.
Proof.
  destruct a as [p|]; simpl.
  - now rewrite canonicalize_idem.
  - apply is_digit_canonicalize.
Qed.

Lemma match_here_canonicalize (p : list Atom) :
  forall s, match_here true p (map canonicalize s) = match_here true p s.
Proof.
  induction p as [|a p IH]; intros s; [reflexivity |].
  destruct s as [|c s]; [reflexivity |].
  simpl. now rewrite atom_matches_canonicalize, IH.
Qed.

Lemma search_canonicalize (p : list Atom) :
  forall s pos,
    search true p (map canonicalize s) pos = search true p s pos.
Proof.
  induction s as [|c s IH]; intros pos.
  - reflexivity.
  - rewrite (search_eq true p (c :: s)).
    change (map canonicalize (c :: s))
      with (canonicalize c :: map canonicalize s).
    rewrite search_eq.
    change (canonicalize c :: map canonicalize s)
      with (map canonicalize (c :: s)).
    rewrite match_here_canonicalize, IH. reflexivity.
Qed.

Lemma test_canonicalize (r : RegExp) (w : str) :
  ignoreCase r = true -> test r (map canonicalize w) = test r w.
Proof.
  intros I. unfold test.
  rewrite length_map, I, skipn_map, search_canonicalize. reflexivity.
Qed.

Lemma same_rule_ignoreCase (ps : list RegExp) :
  Forall2 same_rule ps initial_patterns ->
  Forall (fun r => ignoreCase r = true) ps.
Proof.
  assert (G0 : Forall (fun r => ignoreCase r = true) initial_patterns)
    by (simpl; repeat constructor).
  revert G0. generalize initial_patterns as ps0.
  intros ps0 G0 H. induction H as [|r r0 ps ps0 (_ & _ & Hg) _ IH].
  - constructor.
  - inversion G0; subst. constructor; [congruence | auto].
Qed.

Lemma fired_canonicalize (w : str) (ps : list RegExp) :
  Forall (fun r => ignoreCase r = true) ps ->
  forall index,
    fired ps index (map canonicalize w) = fired ps index w
    /\ tested (map canonicalize w) ps = tested w ps.
Proof.
  induction 1 as [|r ps I _ IH]; intros index; simpl; [auto |].
  rewrite (test_canonicalize r w I).
  destruct (IH (S index)) as [-> ->]. auto.
Qed.

Lemma charAt_map (f : ascii -> ascii) (w : str) (i : Z) :
  charAt (map f w) i = option_map f (charAt w i).
Proof.
  unfold charAt. destruct (i <? 0)%Z; [reflexivity |].
  apply nth_error_map.
Qed.

Lemma Number_option_canonicalize (x : option ascii) :
  Number (option_map canonicalize x) = Number x.
Proof. destruct x; [apply Number_canonicalize | reflexivity]. Qed.

Lemma expansion_canonicalize (i : nat) (w : str) :
  expansion i (map canonicalize w) = expansion i w.
Proof.
  unfold expansion, columns.
  rewrite length_map, !charAt_map, !Number_option_canonicalize.
  reflexivity.
Qed.

Lemma rule_calls_canonicalize (i : nat) (w : str) (cp : Pos) :
  rule_calls i (map canonicalize w) cp = rule_calls i w cp.
Proof.
  unfold rule_calls, replacement. now rewrite expansion_canonicalize.
Qed.

Lemma fired_calls_canonicalize (w : str) (ps : list RegExp) (cp : Pos) :
  Forall (fun r => ignoreCase r = true) ps ->
  fired_calls ps 0 (map canonicalize w) cp = fired_calls ps 0 w cp.
Proof.
  intros I. unfold fired_calls.
  rewrite (proj1 (@fired_canonicalize w ps I 0%nat)).
  induction (fired ps 0 w) as [|i l IH]; simpl; [reflexivity |].
  now rewrite rule_calls_canonicalize, IH.
Qed.

(** X9. Letter case is ignored: two editor states with the same cursor
    whose words before the cursor differ only in the case of letters get
    the same calls from the expander, and the plugin is left in the same
    state. *)
Theorem letter_case_is_ignored (this : t) (e1 e2 : Editor) (w1 w2 : str) :
  rules_intact this ->
  wordBefore e1 = Some w1 ->
  wordBefore e2 = Some w2 ->
  w1 <> [] ->
  map canonicalize w1 = map canonicalize w2 ->
  getCursor e1 = getCursor e2 ->
  exists this' e1' e2' new,
    mathSimplifier this (Some e1) = (Normal tt, this', Some e1')
    /\ mathSimplifier this (Some e2) = (Normal tt, this', Some e2')
    /\ calls e1' = calls e1 ++ new
    /\ calls e2' = calls e2 ++ new.
Proof.
  intros Hi W1 W2 Hne E C.
  pose proof (same_rule_ignoreCase Hi) as I.
  assert (Hne2 : w2 <> []).
  { intros ->. destruct w1; [congruence | discriminate]. }
  exists (mkPlugin (statusBarItem this) (tested w1 (patterns this))).
  do 2 eexists. exists (fired_calls (patterns this) 0 w1 (getCursor e1)).
  split; [apply (mathSimplifier_truthy this e1 W1 Hne) |].
  split.
  { rewrite (mathSimplifier_truthy this e2 W2 Hne2).
    rewrite <- (proj2 (@fired_canonicalize w2 _ I 0%nat)), <- E.
    rewrite (proj2 (@fired_canonicalize w1 _ I 0%nat)). reflexivity. }
  split; [apply calls_fold |].
  rewrite calls_fold. f_equal.
  rewrite <- C.
  rewrite <- (@fired_calls_canonicalize w2 _ _ I), <- E.
  apply fired_calls_canonicalize, I.
Qed.

Lemma letter_case_is_ignored_witness :
  exists this' e1' e2' new,
    mathSimplifier loaded (Some (mkEditor [js "\DeFn"] (mkPos 0 5) []))
    = (Normal tt, this', Some e1')
    /\ mathSimplifier loaded (Some (mkEditor [js "\defn"] (mkPos 0 5) []))
       = (Normal tt, this', Some e2')
    /\ calls e1' = [] ++ new
    /\ calls e2' = [] ++ new.
Proof.
  apply (@letter_case_is_ignored loaded
           (mkEditor [js "\DeFn"] (mkPos 0 5) [])
           (mkEditor [js "\defn"] (mkPos 0 5) [])
           (js "\DeFn") (js "\defn")).
  - exact rules_intact_loaded.
  - reflexivity.
  - reflexivity.
  - discriminate.
  - reflexivity.
  - reflexivity.
Defined.

(* ----------------------------------------------------------------- *)
(** *** The inserted texts *)

(** [Number] of one character of a word is NaN or one of 0 to 9. *)
Lemma Number_range (x : option ascii) :
  Number x = NaN
  \/ exists n : nat, (n <= 9)%nat /\ Number x = Fin (Z.of_nat n).
Proof.
  destruct x as [c|]; [| now left]. unfold Number.
  destruct (is_digit c) eqn:D.
  - right. unfold is_digit in D. apply andb_true_iff in D.
    destruct D as [D1 D2]. apply Nat.leb_le in D1, D2.
    exists (nat_of_ascii c - 48)%nat. split; [lia |].
    unfold digit_value. f_equal. lia.
  - destruct (is_space c); [right; exists 0%nat; split; [lia | reflexivity] |].
    now left.
Qed.

Lemma matching_nil_fired (w : str) (ps : list RegExp) :
  forall index, matching ps index w = [] -> fired ps index w = [].
Proof.
  induction ps as [|r ps IH]; intros index; simpl; [reflexivity |].
  destruct (matches r w) eqn:M; [discriminate |].
  rewrite test_no_match by exact M. simpl. apply IH.
Qed.

Lemma expansion_no_trigger (i : nat) (w : str) :
  matching initial_patterns 0 (expansion i w) = [].
Proof.
  destruct i as [|[|i]].
  - unfold expansion, columns.
    destruct (Number_range (charAt w (Z.of_nat (length w) - 1)))
      as [-> | (n & Hn & ->)]; [(vm_compute; reflexivity) |].
    do 10 (destruct n as [|n]; [(vm_compute; reflexivity) |]). lia.
  - unfold expansion.
    destruct (Number_range (charAt w (Z.of_nat (length w) - 1)))
      as [-> | (n & Hn & ->)];
      destruct (Number_range (charAt w (Z.of_nat (length w) - 3)))
        as [-> | (m & Hm & ->)].
    + (vm_compute; reflexivity).
    + do 10 (destruct m as [|m]; [(vm_compute; reflexivity) |]). lia.
    + do 10 (destruct n as [|n]; [(vm_compute; reflexivity) |]). lia.
    + do 10 (destruct n as [|n];
             [do 10 (destruct m as [|m]; [(vm_compute; reflexivity) |]); lia |]). lia.
  - do 9 (destruct i as [|i]; [(vm_compute; reflexivity) |]). (vm_compute; reflexivity).
Qed.

(** X10. No text that a rule inserts holds a trigger: on a word that is
    such a text, whatever word produced it, no rule fires, so an expansion
    is never expanded again. *)
Theorem expansion_fires_no_rule (this : t) (i : nat) (w : str) :
  rules_intact this ->
  fired (patterns this) 0 (expansion i w) = []
  /\ matching initial_patterns 0 (expansion i w) = [].
Proof.
  intros Hi. split; [| apply expansion_no_trigger].
  apply matching_nil_fired.
  rewrite (matching_same _ Hi). apply expansion_no_trigger.
Qed.

Lemma expansion_fires_no_rule_witness :
  fired (patterns loaded) 0 (js "M_{2,5} = \pmatrix{}") = [].
Proof.
  exact (proj1 (@expansion_fires_no_rule loaded 1 (js "m2,5")
                  rules_intact_loaded)).
Defined.

Lemma digit_cases (c : ascii) :
  is_digit c = true -> In c (js "0123456789").
Proof.
  destruct c as [[] [] [] [] [] [] [] []]; intros H;
    try discriminate H; simpl;
    repeat first [left; reflexivity | right].
Qed.

Lemma digit_not_LF (c : ascii) :
  is_digit c = true -> Ascii.eqb c LF = false.
Proof.
  intros H. apply digit_cases in H. simpl in H.
  repeat (destruct H as [<- | H]; [reflexivity |]). contradiction.
Qed.

Lemma matrix_word (a b : ascii) :
  is_digit a = true -> is_digit b = true ->
  matching initial_patterns 0 ["m"%char; a; ","%char; b] = [1%nat]
  /\ expansion 1 ["m"%char; a; ","%char; b]
     = js "M_{" ++ a :: js "," ++ b :: js "} = \pmatrix{}".
Proof.
  intros Ha Hb. apply digit_cases in Ha, Hb. simpl in Ha, Hb.
  repeat (destruct Ha as [<- | Ha];
          [repeat (destruct Hb as [<- | Hb];
                   [split; vm_compute; reflexivity |]);
           contradiction |]).
  contradiction.
Qed.

(** X11. For every pair of digits a and b, the word m a , b is replaced by
    the matrix template M_{a,b} = \pmatrix{} with those digits, and the
    cursor is not repositioned: the replacement is the only call made. The
    rule list is taken ready for the word. *)
Theorem matrix_expansion (this : t) (e : Editor) (a b : ascii) :
  is_digit a = true ->
  is_digit b = true ->
  rules_intact this ->
  ready this ["m"%char; a; ","%char; b] ->
  valid e ->
  wordBefore e = Some ["m"%char; a; ","%char; b] ->
  exists this' e',
    mathSimplifier this (Some e) = (Normal tt, this', Some e')
    /\ calls e'
       = calls e
         ++ [ ReplaceRange
                (js "M_{" ++ a :: js "," ++ b :: js "} = \pmatrix{}")
                (mkPos (line (cursor e)) (ch (cursor e) - 4)) (cursor e) ]
    /\ doc e'
       = firstn (cursorLine e) (doc e)
         ++ [firstn (cursorCol e - 4) (cursorText e)
             ++ (js "M_{" ++ a :: js "," ++ b :: js "} = \pmatrix{}")
             ++ skipn (cursorCol e) (cursorText e)]
         ++ skipn (S (cursorLine e)) (doc e).
Proof.
  intros Ha Hb Hi Hr V W.
  destruct (@matrix_word a b Ha Hb) as [M X].
  assert (NL : has_no_LF (expansion 1 ["m"%char; a; ","%char; b]) = true).
  { rewrite X. unfold has_no_LF. simpl.
    now rewrite (digit_not_LF a Ha), (digit_not_LF b Hb). }
  destruct (@expand_on_one_line this e ["m"%char; a; ","%char; b] 1
              Hi Hr V W ltac:(discriminate) M eq_refl NL)
    as (this' & e' & H & C & _ & D).
  exists this', e'. split; [exact H |]. split.
  - rewrite C. unfold rule_calls, replacement. rewrite X. reflexivity.
  - rewrite X in D. exact D.
Qed.

Lemma matrix_expansion_witness :
  exists this' e',
    mathSimplifier loaded (Some (mkEditor [js "A: m2,5"] (mkPos 0 7) []))
    = (Normal tt, this', Some e')
    /\ doc e' = [js "A: M_{2,5} = \pmatrix{}"].
Proof.
  destruct (@matrix_expansion loaded
              (mkEditor [js "A: m2,5"] (mkPos 0 7) []) "2" "5")
    as (this' & e' & H & _ & D).
  - reflexivity.
  - reflexivity.
  - exact rules_intact_loaded.
  - apply ready_loaded.
  - constructor; simpl.
    + discriminate.
    + repeat constructor. apply has_no_LF_sound. reflexivity.
    + reflexivity.
  - reflexivity.
  - exists this', e'. split; [exact H | exact D].
Defined.

Lemma array_word (d : ascii) :
  is_digit d = true ->
  matching initial_patterns 0 (js "arr" ++ [d]) = [0%nat]
  /\ expansion 0 (js "arr" ++ [d])
     = js "\begin{array}{" ++ array_columns (Z.to_nat (digit_value d))
       ++ js "}\end{array}"
  /\ has_no_LF (expansion 0 (js "arr" ++ [d])) = true.
Proof.
  intros H. apply digit_cases in H. simpl in H.
  repeat (destruct H as [<- | H];
          [repeat split; vm_compute; reflexivity |]).
  contradiction.
Qed.

(** X12. For every digit n, the word arr n is replaced by an array
    environment whose column specification has n columns, n - 1 of them
    before the bar and one after it, and none at all for 0; the cursor is
    then set 16 columns back from where it was. The rule list is taken
    ready for the word. *)
Theorem array_expansion (this : t) (e : Editor) (d : ascii) :
  is_digit d = true ->
  rules_intact this ->
  ready this (js "arr" ++ [d]) ->
  valid e ->
  wordBefore e = Some (js "arr" ++ [d]) ->
  exists this' e',
    mathSimplifier this (Some e) = (Normal tt, this', Some e')
    /\ calls e'
       = calls e
         ++ [ ReplaceRange
                (js "\begin{array}{"
                 ++ array_columns (Z.to_nat (digit_value d))
                 ++ js "}\end{array}")
                (mkPos (line (cursor e)) (ch (cursor e) - 4)) (cursor e);
              SetCursor (mkPos (line (cursor e)) (ch (cursor e) - 16)) ]
    /\ doc e'
       = firstn (cursorLine e) (doc e)
         ++ [firstn (cursorCol e - 4) (cursorText e)
             ++ (js "\begin{array}{"
                 ++ array_columns (Z.to_nat (digit_value d))
                 ++ js "}\end{array}")
             ++ skipn (cursorCol e) (cursorText e)]
         ++ skipn (S (cursorLine e)) (doc e).
Proof.
  intros Hd Hi Hr V W.
  destruct (@array_word d Hd) as (M & X & NL).
  destruct (@expand_on_one_line this e (js "arr" ++ [d]) 0
              Hi Hr V W ltac:(discriminate) M eq_refl NL)
    as (this' & e' & H & C & _ & D).
  exists this', e'. split; [exact H |]. split.
  - rewrite C. unfold rule_calls, replacement. rewrite X. reflexivity.
  - rewrite X in D. exact D.
Qed.

Lemma array_expansion_witness :
  exists this' e',
    mathSimplifier loaded (Some (mkEditor [js "arr5"] (mkPos 0 4) []))
    = (Normal tt, this', Some e')
    /\ doc e' = [js "\begin{array}{cccc|c}\end{array}"].
Proof.
  destruct (@array_expansion loaded
              (mkEditor [js "arr5"] (mkPos 0 4) []) "5")
    as (this' & e' & H & _ & D).
  - reflexivity.
  - exact rules_intact_loaded.
  - apply ready_loaded.
  - constructor; simpl.
    + discriminate.
    + repeat constructor. apply has_no_LF_sound. reflexivity.
    + reflexivity.
  - reflexivity.
  - exists this', e'. split; [exact H | exact D].
Defined.

(** A rule that inserts a fence tagged [tag] for a word that is exactly its
    trigger: three lines, the cursor on the middle one. *)
Lemma expand_fence (this : t) (e : Editor) (w : str) (i : nat) (tag : str) :
  rules_intact this ->
  ready this w ->
  valid e ->
  wordBefore e = Some w ->
  w <> [] ->
  matching initial_patterns 0 w = [i] ->
  literalLength i = Z.of_nat (length w) ->
  (forall cp,
      rule_calls i w cp
      = [ ReplaceRange (js "```" ++ tag ++ [LF; LF] ++ js "```")
            (back cp (literalLength i)) cp;
          SetCursor (nextLine cp) ]) ->
  has_no_LF tag = true ->
  exists this' e',
    mathSimplifier this (Some e) = (Normal tt, this', Some e')
    /\ firstn (cursorCol e) (cursorText e)
       = firstn (cursorCol e - length w) (cursorText e) ++ w
    /\ doc e'
       = firstn (cursorLine e) (doc e)
         ++ [ firstn (cursorCol e - length w) (cursorText e)
              ++ js "```" ++ tag;
              [];
              js "```" ++ skipn (cursorCol e) (cursorText e) ]
         ++ skipn (S (cursorLine e)) (doc e)
    /\ cursor e' = mkPos (line (cursor e) + 1) 0
    /\ lineText (doc e') (line (cursor e')) = [].
Proof.
  intros Hi Hr V W Hne M K RC NT.
  assert (F : fired (patterns this) 0 w = [i])
    by (rewrite fired_initial; assumption).
  pose proof (cursorText_no_LF V) as N.
  pose proof (valid_line V) as Hl. pose proof (cursorLine_lt V) as Hlt.
  pose proof (wordBefore_length V W) as Hw.
  pose proof (valid_ch V) as Hc.
  set (e' := fold_left exec (rule_calls i w (cursor e)) e).
  set (head := firstn (cursorCol e - length w) (cursorText e)).
  set (rest := skipn (cursorCol e) (cursorText e)).
  assert (D : doc e'
              = firstn (cursorLine e) (doc e)
                ++ [head ++ js "```" ++ tag; []; js "```" ++ rest]
                ++ skipn (S (cursorLine e)) (doc e)).
  { unfold e'. rewrite RC. cbn [fold_left exec]. cbn [setCursor doc].
    rewrite (replaceRange_back V)
      by (pose proof (literalLength_range i); unfold cursorCol in *; lia).
    rewrite K, Nat2Z.id. fold head rest.
    do 2 f_equal.
    replace (head ++ (js "```" ++ tag ++ [LF; LF] ++ js "```") ++ rest)
      with ((head ++ js "```" ++ tag) ++ LF :: LF :: js "```" ++ rest)
      by (rewrite <- !app_assoc; reflexivity).
    rewrite lines_of_app
      by (repeat apply no_LF_app;
          [apply no_LF_firstn, N | apply has_no_LF_sound; reflexivity
           | apply has_no_LF_sound, NT]).
    do 2 rewrite lines_of_cons. simpl Ascii.eqb. cbv iota.
    rewrite lines_of_no_LF
      by (apply (@no_LF_app (js "```"));
          [apply has_no_LF_sound; reflexivity | apply no_LF_skipn, N]).
    cbn [hd tl]. rewrite app_nil_r. reflexivity. }
  assert (L : lineText (doc e') (line (cursor e) + 1) = []).
  { unfold lineText. rewrite D.
    replace (Z.to_nat (line (cursor e) + 1))
      with (S (length (firstn (cursorLine e) (doc e))))
      by (rewrite firstn_length_le by lia; unfold cursorLine; lia).
    apply nth_after_prefix. }
  assert (C : cursor e' = mkPos (line (cursor e) + 1) 0).
  { assert (E : cursor e'
                = clipPos (doc e') (mkPos (line (cursor e) + 1) 0))
      by (unfold e'; rewrite RC; reflexivity).
    rewrite E. apply clipPos_id; cbn [line ch].
    - rewrite D, !length_app, firstn_length_le by lia.
      simpl length. unfold cursorLine in *. lia.
    - rewrite L. simpl. lia. }
  exists (mkPlugin (statusBarItem this) (tested w (patterns this))), e'.
  split; [apply (mathSimplifier_one_rule this e W Hne F) |].
  split; [apply (consumed_is_word V W) |].
  split; [exact D |]. split; [exact C |].
  rewrite C. exact L.
Qed.

(** X13. Each word that opens a code fence, the plain \code and \prg:
    followed by a key of the table of languages, is replaced by a fence of
    three lines whose opening line carries the tag the table gives for the
    key (none for \code), and the cursor is then at column 0 of the empty
    middle line: the five cases spelled out in the switch agree with the
    table. The rule list is taken ready for the word. *)
Theorem fence_expansion (this : t) (e : Editor) (trigger tag : string) :
  In (trigger, tag) fence_triggers ->
  rules_intact this ->
  ready this (js trigger) ->
  valid e ->
  wordBefore e = Some (js trigger) ->
  exists this' e',
    mathSimplifier this (Some e) = (Normal tt, this', Some e')
    /\ firstn (cursorCol e) (cursorText e)
       = firstn (cursorCol e - length (js trigger)) (cursorText e)
         ++ js trigger
    /\ doc e'
       = firstn (cursorLine e) (doc e)
         ++ [ firstn (cursorCol e - length (js trigger)) (cursorText e)
              ++ js "```" ++ js tag;
              [];
              js "```" ++ skipn (cursorCol e) (cursorText e) ]
         ++ skipn (S (cursorLine e)) (doc e)
    /\ cursor e' = mkPos (line (cursor e) + 1) 0
    /\ lineText (doc e') (line (cursor e')) = [].
Proof.
  intros Hin Hi Hr V W. simpl in Hin.
  destruct Hin as [E | [E | [E | [E | [E | [E | []]]]]]];
    inversion E; subst trigger tag; clear E.
  - apply (@expand_fence this e _ 3 (js "") Hi Hr V W);
      first [discriminate | reflexivity | intros; reflexivity].
  - apply (@expand_fence this e _ 4 (js "js") Hi Hr V W);
      first [discriminate | reflexivity | intros; reflexivity].
  - apply (@expand_fence this e _ 5 (js "python") Hi Hr V W);
      first [discriminate | reflexivity | intros; reflexivity].
  - apply (@expand_fence this e _ 6 (js "cpp") Hi Hr V W);
      first [discriminate | reflexivity | intros; reflexivity].
  - apply (@expand_fence this e _ 7 (js "java") Hi Hr V W);
      first [discriminate | reflexivity | intros; reflexivity].
  - apply (@expand_fence this e _ 8 (js "pseudocodice") Hi Hr V W);
      first [discriminate | reflexivity | intros; reflexivity].
Qed.

Lemma fence_expansion_witness :
  exists this' e',
    mathSimplifier loaded
      (Some (mkEditor [js "see \prg:psc below"] (mkPos 0 12) []))
    = (Normal tt, this', Some e')
    /\ doc e' = [js "see ```pseudocodice"; []; js "``` below"]
    /\ cursor e' = mkPos 1 0.
Proof.
  destruct (@fence_expansion loaded
              (mkEditor [js "see \prg:psc below"] (mkPos 0 12) [])
              "\prg:psc" "pseudocodice")
    as (this' & e' & H & _ & D & C & _).
  - simpl. do 5 right. left. reflexivity.
  - exact rules_intact_loaded.
  - apply ready_loaded.
  - constructor; simpl.
    + discriminate.
    + repeat constructor. apply has_no_LF_sound. reflexivity.
    + reflexivity.
  - reflexivity.
  - exists this', e'. split; [exact H |]. split; [exact D | exact C].
Defined.

(* ----------------------------------------------------------------- *)
(** *** Where the cursor is sent *)

(** X14. When one of the rules arr, \pars, \sys or \defn is the only one
    to fire, the expander makes two calls: the replacement, and a setCursor
    whose column is counted back from the cursor column read before the
    replacement, which puts it 12, 7, 11 or 3 columns before the column
    where the inserted text starts, whatever the text around the word. *)
Theorem cursor_request_before_insertion
  (this : t) (e : Editor) (w : str) (i : nat) :
  rules_intact this ->
  wordBefore e = Some w ->
  fired (patterns this) 0 w = [i] ->
  In i [0; 2; 9; 10]%nat ->
  exists this' e' d,
    mathSimplifier this (Some e) = (Normal tt, this', Some e')
    /\ In (i, d) [(0%nat, 12%Z); (2%nat, 7%Z); (9%nat, 11%Z); (10%nat, 3%Z)]
    /\ calls e'
       = calls e
         ++ [ ReplaceRange (expansion i w)
                (mkPos (line (cursor e)) (ch (cursor e) - literalLength i))
                (cursor e);
              SetCursor
                (mkPos (line (cursor e))
                   (ch (cursor e) - literalLength i - d)) ].
Proof.
  intros Hi W F Hin.
  assert (Hf : In i (fired (patterns this) 0 w)) by (rewrite F; now left).
  destruct (@fired_literalLength this w i Hi Hf) as [_ K].
  pose proof (literalLength_range i) as R.
  assert (Hne : w <> []) by (destruct w; [simpl in K; lia | discriminate]).
  exists (mkPlugin (statusBarItem this) (tested w (patterns this))).
  exists (fold_left exec (rule_calls i w (cursor e)) e).
  simpl in Hin.
  destruct Hin as [<- | [<- | [<- | [<- | []]]]].
  - exists 12%Z. split; [apply (mathSimplifier_one_rule this e W Hne F) |].
    split; [simpl; tauto |].
    rewrite calls_fold. unfold rule_calls, replacement.
    cbn [Nat.ltb Nat.leb cursorAfter literalLength]. unfold back.
    cbn [line ch]. do 5 f_equal. lia.
  - exists 7%Z. split; [apply (mathSimplifier_one_rule this e W Hne F) |].
    split; [simpl; tauto |].
    rewrite calls_fold. unfold rule_calls, replacement.
    cbn [Nat.ltb Nat.leb cursorAfter literalLength]. unfold back.
    cbn [line ch]. do 5 f_equal. lia.
  - exists 11%Z. split; [apply (mathSimplifier_one_rule this e W Hne F) |].
    split; [simpl; tauto |].
    rewrite calls_fold. unfold rule_calls, replacement.
    cbn [Nat.ltb Nat.leb cursorAfter literalLength]. unfold back.
    cbn [line ch]. do 5 f_equal. lia.
  - exists 3%Z. split; [apply (mathSimplifier_one_rule this e W Hne F) |].
    split; [simpl; tauto |].
    rewrite calls_fold. unfold rule_calls, replacement.
    cbn [Nat.ltb Nat.leb cursorAfter literalLength]. unfold back.
    cbn [line ch]. do 5 f_equal. lia.
Qed.

Lemma cursor_request_before_insertion_witness :
  exists this' e' d,
    mathSimplifier loaded (Some (mkEditor [js "let f = \pars"] (mkPos 0 13) []))
    = (Normal tt, this', Some e')
    /\ In (2%nat, d) [(0%nat, 12%Z); (2%nat, 7%Z); (9%nat, 11%Z); (10%nat, 3%Z)]
    /\ calls e'
       = [ ReplaceRange (js "\left(\right)") (mkPos 0 (13 - 5)) (mkPos 0 13);
           SetCursor (mkPos 0 (13 - 5 - d)) ].
Proof.
  apply (@cursor_request_before_insertion loaded
           (mkEditor [js "let f = \pars"] (mkPos 0 13) []) (js "\pars") 2).
  - exact rules_intact_loaded.
  - reflexivity.
  - reflexivity.
  - simpl. tauto.
Defined.

(* ================================================================= *)
(** ** Properties of the earlier rule catalog *)

Lemma earlier_rule_table (cp : Pos) (index : nat) (w : str) (e : Editor) :
  (index = 0%nat -> EarlierTable.throws w = false) ->
  Earlier.rule cp index w e
  = Normal (fold_left exec (EarlierTable.rule_calls index w cp) e).
Proof.
  intros H. destruct index as [|index].
  - specialize (H eq_refl). unfold EarlierTable.throws in H.
    unfold Earlier.rule, EarlierTable.rule_calls, EarlierTable.text.
    destruct (arr_newWord_earlier w); [reflexivity | discriminate].
  - do 4 (destruct index as [|index]; [reflexivity |]). reflexivity.
Qed.

(** The loop of the earlier catalog where the array rule cannot throw: past
    index 0, or on a word on which it does not. *)
Lemma earlier_forEach_normal (w : str) (cp : Pos) (ps : list RegExp) :
  w <> [] ->
  forall index e,
    (index = 0%nat -> EarlierTable.throws w = false) ->
    Earlier.forEach (Some w) cp ps index e
    = (Normal tt, tested w ps,
       fold_left exec (EarlierTable.fired_calls ps index w cp) e).
Proof.
  intros Hw. unfold EarlierTable.fired_calls.
  induction ps as [|r ps IH]; intros index e H; simpl.
  - reflexivity.
  - unfold Earlier.callback. destruct w as [|c w]; [congruence |].
    destruct (test r (c :: w)) as [matched r'] eqn:T. simpl.
    destruct matched; simpl.
    + rewrite earlier_rule_table by exact H.
      rewrite IH by discriminate. rewrite fold_left_app. reflexivity.
    + rewrite IH by discriminate. reflexivity.
Qed.

(** The loop when the array rule fires and throws: nothing else happens. *)
Lemma earlier_forEach_throw (w : str) (cp : Pos) (r : RegExp)
  (ps : list RegExp) (e : Editor) :
  w <> [] ->
  fst (test r w) = true ->
  EarlierTable.throws w = true ->
  Earlier.forEach (Some w) cp (r :: ps) 0 e
  = (RangeError, snd (test r w) :: ps, e).
Proof.
  intros Hw T H. simpl. unfold Earlier.callback.
  destruct w as [|c w]; [congruence |].
  destruct (test r (c :: w)) as [matched r']. simpl in T. subst matched.
  unfold Earlier.rule. unfold EarlierTable.throws in H.
  destruct (arr_newWord_earlier (c :: w)); [discriminate | reflexivity].
Qed.

Lemma earlier_forEach_miss (w : str) (cp : Pos) (r : RegExp)
  (ps : list RegExp) (e : Editor) :
  w <> [] ->
  fst (test r w) = false ->
  Earlier.forEach (Some w) cp (r :: ps) 0 e
  = (Normal tt, tested w (r :: ps),
     fold_left exec (EarlierTable.fired_calls (r :: ps) 0 w cp) e).
Proof.
  intros Hw T. simpl. unfold Earlier.callback.
  destruct w as [|c w]; [congruence |].
  unfold EarlierTable.fired_calls. simpl fired.
  destruct (test r (c :: w)) as [matched r'] eqn:E. simpl in T.
  subst matched. simpl.
  rewrite earlier_forEach_normal by discriminate. reflexivity.
Qed.

(** [Number] of the last character decides whether the array text of the
    earlier catalog can be built. *)
Lemma earlier_throws_iff (w : str) :
  EarlierTable.throws w = true
  <-> Number (charAt w (Z.of_nat (length w) - 1)) = Fin 0.
Proof.
  unfold EarlierTable.throws, arr_newWord_earlier.
  destruct (Number_range (charAt w (Z.of_nat (length w) - 1)))
    as [-> | (n & Hn & ->)].
  - simpl. split; discriminate.
  - destruct n as [|n].
    + simpl. split; reflexivity.
    + unfold pred, repeat.
      assert (K : (Z.of_nat (S n) - 1 <? 0)%Z = false)
        by (apply Z.ltb_ge; lia).
      rewrite K. split; [discriminate |].
      intros H. inversion H.
Qed.

Lemma Number_zero (c : ascii) :
  is_space c = false -> Number (Some c) = Fin 0 -> c = "0"%char.
Proof.
  destruct c as [[] [] [] [] [] [] [] []]; intros S H;
    first [reflexivity | discriminate S | vm_compute in H; discriminate H].
Qed.

Lemma wordBefore_no_space (e : Editor) (w : str) :
  wordBefore e = Some w -> no_space w.
Proof.
  unfold wordBefore. intros H.
  destruct (proj1 (@split_space_word _ [] w (Forall_nil _)) H)
    as [[E Hs] | (pre & _ & Hn & _)]; [| exact Hn].
  subst w. exact Hs.
Qed.

Lemma last_char_no_space (w : str) (c : ascii) :
  no_space w -> charAt w (Z.of_nat (length w) - 1) = Some c ->
  is_space c = false.
Proof.
  intros Hn H. unfold charAt in H.
  destruct (Z.of_nat (length w) - 1 <? 0)%Z; [discriminate |].
  apply nth_error_In in H.
  unfold no_space in Hn. rewrite Forall_forall in Hn. auto.
Qed.

Lemma charAt_last_exists (w : str) :
  w <> [] -> exists c, charAt w (Z.of_nat (length w) - 1) = Some c.
Proof.
  intros H. unfold charAt.
  assert (1 <= length w)%nat by (destruct w; [congruence | simpl; lia]).
  assert (K : (Z.of_nat (length w) - 1 <? 0)%Z = false)
    by (apply Z.ltb_ge; lia).
  rewrite K.
  destruct (nth_error w (Z.to_nat (Z.of_nat (length w) - 1))) eqn:E;
    [eauto |].
  apply nth_error_None in E. lia.
Qed.

Lemma earlier_throws_last_zero (e : Editor) (w : str) :
  wordBefore e = Some w -> w <> [] ->
  (EarlierTable.throws w = true
   <-> charAt w (Z.of_nat (length w) - 1) = Some "0"%char).
Proof.
  intros W Hne. rewrite earlier_throws_iff.
  destruct (charAt_last_exists Hne) as [c Hc]. rewrite Hc.
  split.
  - intros H. f_equal. apply Number_zero; [| exact H].
    eapply last_char_no_space; [eapply wordBefore_no_space |]; eassumption.
  - intros H. inversion H. reflexivity.
Qed.

Lemma earlier_patterns (this : t) :
  earlier_intact this ->
  exists r0 r1 r2 r3 r4,
    patterns this = [r0; r1; r2; r3; r4]
    /\ same_rule r4 (mkRegExp (lit "\code") false false 0).
Proof.
  unfold earlier_intact, Earlier.initial_patterns. intros H.
  pose proof (Forall2_length H) as L. simpl in L.
  destruct (patterns this) as [|r0 [|r1 [|r2 [|r3 [|r4 [|r5 l]]]]]];
    try discriminate L.
  exists r0, r1, r2, r3, r4. split; [reflexivity |].
  repeat match goal with
         | K : Forall2 _ (_ :: _) (_ :: _) |- _ =>
             inversion K; clear K; subst
         end.
  assumption.
Qed.

(** One run of the earlier catalog on a non-empty word, by cases. *)
Lemma earlier_run (this : t) (e : Editor) (w : str) (r0 : RegExp)
  (rest : list RegExp) :
  patterns this = r0 :: rest ->
  wordBefore e = Some w ->
  w <> [] ->
  Earlier.mathSimplifier this (Some e)
  = if fst (test r0 w) && EarlierTable.throws w
    then (RangeError,
          mkPlugin (statusBarItem this) (snd (test r0 w) :: rest), Some e)
    else (Normal tt,
          mkPlugin (statusBarItem this) (tested w (r0 :: rest)),
          Some (fold_left exec
                  (EarlierTable.fired_calls (r0 :: rest) 0 w (cursor e)) e)).
Proof.
  intros P W Hne. unfold Earlier.mathSimplifier. rewrite P, W.
  unfold getCursor.
  destruct (fst (test r0 w)) eqn:T.
  - destruct (EarlierTable.throws w) eqn:H; simpl andb; cbv iota.
    + now rewrite earlier_forEach_throw.
    + rewrite earlier_forEach_normal by auto. reflexivity.
  - simpl andb. cbv iota. now rewrite earlier_forEach_miss.
Qed.

(** X15. In the earlier catalog a run on a non-empty word throws a
    RangeError exactly when the array pattern, the first of the list,
    succeeds on the word and the word ends with the digit 0; the exception
    leaves the editor untouched, and the patterns after the first are not
    tested. *)
Theorem earlier_array_zero_throws (this : t) (e : Editor) (w : str) :
  earlier_intact this ->
  wordBefore e = Some w ->
  w <> [] ->
  exists r0 rest,
    patterns this = r0 :: rest
    /\ (fst (fst (Earlier.mathSimplifier this (Some e))) = RangeError
        <-> fst (test r0 w) = true
            /\ charAt w (Z.of_nat (length w) - 1) = Some "0"%char)
    /\ (fst (fst (Earlier.mathSimplifier this (Some e))) = RangeError ->
        Earlier.mathSimplifier this (Some e)
        = (RangeError,
           mkPlugin (statusBarItem this) (snd (test r0 w) :: rest),
           Some e)).
Proof.
  intros Hi W Hne.
  destruct (earlier_patterns Hi) as (r0 & r1 & r2 & r3 & r4 & P & _).
  exists r0, [r1; r2; r3; r4]. split; [exact P |].
  rewrite (earlier_run this e P W Hne).
  rewrite <- (@earlier_throws_last_zero e w W Hne).
  destruct (fst (test r0 w)), (EarlierTable.throws w); simpl.
  - split; [tauto | reflexivity].
  - split; [split; [discriminate | intros [_ K]; discriminate K]
           | discriminate].
  - split; [split; [discriminate | intros [K _]; discriminate K]
           | discriminate].
  - split; [split; [discriminate | intros [K _]; discriminate K]
           | discriminate].
Qed.

Lemma earlier_array_zero_throws_witness :
  Earlier.mathSimplifier Earlier.loaded
    (Some (mkEditor [js "arr0"] (mkPos 0 4) []))
  = (RangeError,
     mkPlugin (Some (mkStatusBar true []))
       (set_lastIndex (gi (lit "arr" ++ [Digit])) 4
        :: tl Earlier.initial_patterns),
     Some (mkEditor [js "arr0"] (mkPos 0 4) [])).
Proof.
  destruct (@earlier_array_zero_throws Earlier.loaded
              (mkEditor [js "arr0"] (mkPos 0 4) []) (js "arr0"))
    as (r0 & rest & P & I & T).
  - unfold earlier_intact, same_rule. simpl. repeat constructor.
  - reflexivity.
  - discriminate.
  - inversion P; subst r0 rest.
    apply T. apply I. split; reflexivity.
Defined.

Lemma earlier_forEach_falsy (wd : option str) (cp : Pos) (ps : list RegExp) :
  truthy wd = false ->
  forall index e, Earlier.forEach wd cp ps index e = (Normal tt, ps, e).
Proof.
  intros H. induction ps as [|r ps IH]; intros index e; simpl.
  - reflexivity.
  - unfold Earlier.callback.
    destruct wd as [[|c w]|]; try discriminate; now rewrite IH.
Qed.

Lemma earlier_fired_calls_replace (ps : list RegExp) (w : str) (cp : Pos) :
  forall index,
    Forall (fun c => is_replace c = true)
      (EarlierTable.fired_calls ps index w cp).
Proof.
  intros index. unfold EarlierTable.fired_calls.
  induction (fired ps index w) as [|i l IH]; simpl; [constructor |].
  apply Forall_app. split; [| exact IH].
  unfold EarlierTable.rule_calls.
  destruct (i <? 5)%nat; repeat constructor.
Qed.

(** X16. The earlier catalog never repositions the cursor: whatever the
    plugin state and the editor, every call a run makes on the editor is a
    replaceRange. *)
Theorem earlier_calls_are_replacements (this : t) (e : Editor) :
  exists c this' e' new,
    Earlier.mathSimplifier this (Some e) = (c, this', Some e')
    /\ calls e' = calls e ++ new
    /\ Forall (fun x => is_replace x = true) new.
Proof.
  assert (Quiet :
            Earlier.forEach (wordBefore e) (getCursor e) (patterns this) 0 e
            = (Normal tt, patterns this, e) ->
            exists c this' e' new,
              Earlier.mathSimplifier this (Some e) = (c, this', Some e')
              /\ calls e' = calls e ++ new
              /\ Forall (fun x => is_replace x = true) new).
  { intros H. exists (Normal tt), this, e, [].
    unfold Earlier.mathSimplifier. rewrite H.
    split; [now destruct this |].
    split; [now rewrite app_nil_r | constructor]. }
  destruct (wordBefore e) as [[|c0 w]|] eqn:W.
  - apply Quiet. now apply earlier_forEach_falsy.
  - destruct (patterns this) as [|r0 rest] eqn:P.
    + apply Quiet. reflexivity.
    + assert (Hne : c0 :: w <> []) by discriminate.
      rewrite (earlier_run this e P W Hne).
      destruct (fst (test r0 (c0 :: w)) && EarlierTable.throws (c0 :: w)).
      * do 3 eexists. exists []. split; [reflexivity |].
        split; [now rewrite app_nil_r | constructor].
      * do 4 eexists. split; [reflexivity |].
        split; [apply calls_fold | apply earlier_fired_calls_replace].
  - apply Quiet. now apply earlier_forEach_falsy.
Qed.

Lemma fired_nth (w : str) (ps : list RegExp) :
  forall index j r,
    nth_error ps j = Some r ->
    fst (test r w) = true ->
    In (index + j)%nat (fired ps index w).
Proof.
  induction ps as [|r0 ps IH]; intros index j r Hn T.
  - destruct j; discriminate.
  - destruct j as [|j]; simpl in Hn.
    + inversion Hn; subst. simpl. rewrite T, Nat.add_0_r. now left.
    + simpl. replace (index + S j)%nat with (S index + j)%nat by lia.
      destruct (fst (test r0 w)); [right |]; eapply IH; eassumption.
Qed.

(** A regular expression without the [g] flag: [test] leaves it as it is
    and succeeds exactly when the pattern occurs. *)
Lemma test_not_global (r : RegExp) (w : str) :
  global r = false -> test r w = (matches r w, r).
Proof.
  intros G. unfold test, matches. rewrite G. simpl.
  destruct (search _ _ w 0); reflexivity.
Qed.

(** X17. The \code rule of the earlier catalog, whose pattern has no
    flags, does not depend on earlier runs: whenever the word before the
    cursor holds \code in lower case and does not end with 0, the run
    completes, the fence replacement is among its calls, and the regular
    expression of the rule is left exactly as it was, so the next run
    fires it again. *)
Theorem earlier_code_rule_every_run (this : t) (e : Editor) (w : str) :
  earlier_intact this ->
  wordBefore e = Some w ->
  matches (mkRegExp (lit "\code") false false 0) w = true ->
  charAt w (Z.of_nat (length w) - 1) <> Some "0"%char ->
  exists this' e' new,
    Earlier.mathSimplifier this (Some e) = (Normal tt, this', Some e')
    /\ calls e' = calls e ++ new
    /\ In (ReplaceRange (fence "")
             (mkPos (line (cursor e)) (ch (cursor e) - 5)) (cursor e)) new
    /\ nth_error (patterns this') 4 = nth_error (patterns this) 4
    /\ earlier_intact this'.
Proof.
  intros Hi W M H0.
  destruct (earlier_patterns Hi) as (r0 & r1 & r2 & r3 & r4 & P & S4).
  assert (Hne : w <> []).
  { intros ->. vm_compute in M. discriminate. }
  assert (Th : EarlierTable.throws w = false).
  { destruct (EarlierTable.throws w) eqn:T; [| reflexivity].
    exfalso. apply H0. now apply (@earlier_throws_last_zero e w W Hne). }
  assert (G4 : global r4 = false) by (destruct S4 as (_ & G & _); exact G).
  assert (M4 : matches r4 w = true) by (rewrite (matches_same w S4); exact M).
  pose proof (test_not_global r4 w G4) as T4.
  rewrite (earlier_run this e P W Hne), Th, andb_false_r.
  do 3 eexists. split; [reflexivity |].
  split; [apply calls_fold |].
  split; [| split].
  - unfold EarlierTable.fired_calls. apply in_flat_map.
    exists 4%nat. split.
    + apply (@fired_nth w [r0; r1; r2; r3; r4] 0 4 r4); [reflexivity |].
      now rewrite T4.
    + left. reflexivity.
  - rewrite P. cbn [patterns tested map nth_error]. now rewrite T4.
  - unfold earlier_intact. cbn [patterns]. rewrite <- P.
    apply tested_same. exact Hi.
Qed.

(** Two runs in a row on the word \code: the second one starts from the
    plugin the first one left, and fires the rule again. *)
Lemma earlier_code_rule_every_run_witness :
  exists this1 e1 new1 this2 e2 new2,
    Earlier.mathSimplifier Earlier.loaded
      (Some (mkEditor [js "\code"] (mkPos 0 5) []))
    = (Normal tt, this1, Some e1)
    /\ calls e1 = [] ++ new1
    /\ In (ReplaceRange (fence "") (mkPos 0 0) (mkPos 0 5)) new1
    /\ Earlier.mathSimplifier this1
         (Some (mkEditor [js "\code"] (mkPos 0 5) []))
       = (Normal tt, this2, Some e2)
    /\ calls e2 = [] ++ new2
    /\ In (ReplaceRange (fence "") (mkPos 0 0) (mkPos 0 5)) new2.
Proof.
  destruct (@earlier_code_rule_every_run Earlier.loaded
              (mkEditor [js "\code"] (mkPos 0 5) []) (js "\code"))
    as (this1 & e1 & new1 & H1 & C1 & I1 & _ & K1).
  - unfold earlier_intact, same_rule. simpl. repeat constructor.
  - reflexivity.
  - reflexivity.
  - discriminate.
  - destruct (@earlier_code_rule_every_run this1
                (mkEditor [js "\code"] (mkPos 0 5) []) (js "\code") K1)
      as (this2 & e2 & new2 & H2 & C2 & I2 & _).
    + reflexivity.
    + reflexivity.
    + discriminate.
    + exists this1, e1, new1, this2, e2, new2.
      repeat split; assumption.
Defined.

(** X18. The two catalogs build the same array text exactly for a word
    that ends with a digit from 1 to 9. For a word that ends with another
    character that is no digit the earlier catalog inserts the one-column
    specification |c where the extended one inserts none, and for a word
    that ends with 0 the earlier one throws where the extended one inserts
    the empty specification. *)
Theorem array_text_of_both_catalogs (w : str) (c : ascii) :
  charAt w (Z.of_nat (length w) - 1) = Some c ->
  is_space c = false ->
  (is_digit c = true -> c <> "0"%char ->
   arr_newWord_earlier w = Normal (expansion 0 w))
  /\ (is_digit c = false ->
      arr_newWord_earlier w = Normal (js "\begin{array}{|c}\end{array}")
      /\ expansion 0 w = js "\begin{array}{}\end{array}")
  /\ (c = "0"%char ->
      arr_newWord_earlier w = RangeError
      /\ expansion 0 w = js "\begin{array}{}\end{array}").
Proof.
  intros Hc. unfold arr_newWord_earlier, expansion, columns. rewrite Hc.
  clear Hc w.
  destruct c as [[] [] [] [] [] [] [] []]; intros S;
    (split; [| split]);
    first [ discriminate S
          | intros D; first [discriminate D | intros N; first [reflexivity | congruence]]
          | intros D; first [discriminate D | split; reflexivity] ].
Qed.

Lemma array_text_of_both_catalogs_witness :
  arr_newWord_earlier (js "arr7") = Normal (expansion 0 (js "arr7"))
  /\ arr_newWord_earlier (js "arr7x")
     = Normal (js "\begin{array}{|c}\end{array}")
  /\ arr_newWord_earlier (js "arr0") = RangeError.
Proof.
  split; [| split].
  - apply (proj1 (@array_text_of_both_catalogs (js "arr7") "7"
                    eq_refl eq_refl)); [reflexivity | discriminate].
  - apply (proj1 (proj2 (@array_text_of_both_catalogs (js "arr7x") "x"
                           eq_refl eq_refl))). reflexivity.
  - apply (proj2 (proj2 (@array_text_of_both_catalogs (js "arr0") "0"
                           eq_refl eq_refl))). reflexivity.
Defined.

(* ================================================================= *)
(** ** The handler of the editor-change event *)

Lemma mathSimplifier_patterns_only (this : t) (sb : option StatusBar)
  (editor : option Editor) :
  mathSimplifier (mkPlugin sb (patterns this)) editor
  = let '(c, this', editor') := mathSimplifier this editor in
    (c, mkPlugin sb (patterns this'), editor').
Proof.
  unfold mathSimplifier. destruct editor as [e|]; [| reflexivity].
  cbn [patterns statusBarItem].
  destruct (forEach (wordBefore e) (getCursor e) (patterns this) 0 e)
    as [[c ps] e'].
  reflexivity.
Qed.

(** X19. In the handler of the editor-change event the line counter and
    the expander do not interfere: the handler's result is the expander's
    result on the incoming plugin, with the status bar set by the line
    counter from the text as it was before the expansion; the expander
    never throws, and the rule list stays intact. *)
Theorem editor_change_decomposes (this : t) (e : Editor) :
  rules_intact this ->
  exists this' e',
    mathSimplifier this (Some e) = (Normal tt, this', Some e')
    /\ on_editor_change this e
       = (Normal tt, updateLineCount this' (Some (getValue e)), Some e')
    /\ displayed (updateLineCount this' (Some (getValue e)))
       = displayed (updateLineCount this (Some (getValue e)))
    /\ rules_intact (updateLineCount this' (Some (getValue e))).
Proof.
  intros Hi.
  assert (Shape : forall c : option str,
            updateLineCount this c
            = mkPlugin (statusBarItem (updateLineCount this c))
                (patterns this)).
  { intros c. unfold updateLineCount. destruct c as [[|x T]|]; reflexivity. }
  assert (Run : exists ps' e',
            mathSimplifier this (Some e)
            = (Normal tt, mkPlugin (statusBarItem this) ps', Some e')
            /\ Forall2 same_rule ps' initial_patterns).
  { destruct (wordBefore e) as [[|c w]|] eqn:W.
    - exists (patterns this), e.
      rewrite mathSimplifier_falsy by (rewrite W; reflexivity).
      split; [now destruct this | exact Hi].
    - do 2 eexists.
      rewrite (mathSimplifier_truthy this e W) by discriminate.
      split; [reflexivity | apply tested_same, Hi].
    - exists (patterns this), e.
      rewrite mathSimplifier_falsy by (rewrite W; reflexivity).
      split; [now destruct this | exact Hi]. }
  destruct Run as (ps' & e' & R & I').
  exists (mkPlugin (statusBarItem this) ps'), e'.
  split; [exact R |].
  assert (U : forall c : option str,
            updateLineCount (mkPlugin (statusBarItem this) ps') c
            = mkPlugin (statusBarItem (updateLineCount this c)) ps').
  { intros c. unfold updateLineCount. destruct c as [[|x T]|]; reflexivity. }
  split; [| split].
  - unfold on_editor_change.
    rewrite (Shape (Some (getValue e))), mathSimplifier_patterns_only, R.
    cbn [patterns]. now rewrite U.
  - rewrite U. reflexivity.
  - rewrite U. exact I'.
Qed.

Lemma editor_change_decomposes_witness :
  exists this' e',
    on_editor_change loaded
      (mkEditor [js "a"; js "\code"] (mkPos 1 5) [])
    = (Normal tt, this', Some e')
    /\ displayed this' = Some (js "Lines: 2")
    /\ doc e' = [js "a"; js "```"; []; js "```"].
Proof.
  destruct (@editor_change_decomposes loaded
              (mkEditor [js "a"; js "\code"] (mkPos 1 5) [])
              rules_intact_loaded)
    as (this' & e' & R & H & D & _).
  exists (updateLineCount this'
            (Some (getValue (mkEditor [js "a"; js "\code"] (mkPos 1 5) [])))),
    e'.
  split; [exact H |]. split; [rewrite D; reflexivity |].
  inversion R. reflexivity.
Defined.

(* ================================================================= *)
(** ** Dollar signs in the line counter *)

Lemma split_lines_push (c : ascii) (cur s : str) :
  c <> LF -> c <> "$"%char ->
  split_lines_from cur (c :: s) = split_lines_from (c :: cur) s.
Proof.
  intros Hn Hd. simpl.
  destruct (Ascii.eqb_spec c LF); [congruence |].
  destruct s as [|d s]; [reflexivity |].
  destruct (Ascii.eqb_spec c "$"); [congruence | reflexivity].
Qed.

(** After a text without dollar signs, two dollar signs cut like a line
    feed. *)
Lemma split_lines_dollars (a : str) :
  ~ In "$"%char a ->
  forall cur b,
    split_lines_from cur (a ++ "$"%char :: "$"%char :: b)
    = split_lines_from cur (a ++ LF :: b).
Proof.
  induction a as [|c a IH]; intros Hd cur b.
  - reflexivity.
  - assert (Hc : c <> "$"%char) by (intros ->; apply Hd; now left).
    assert (Ha : ~ In "$"%char a) by (intros K; apply Hd; now right).
    destruct (Ascii.eqb_spec c LF) as [->|Hn].
    + simpl. now rewrite (IH Ha).
    + change ((c :: a) ++ ?x) with (c :: (a ++ x)).
      rewrite !split_lines_push by assumption. apply IH, Ha.
Qed.

(** X20. Two dollar signs count as a line break: where the text in front
    of them holds no dollar sign, the count displayed is the one displayed
    for the text with a line feed in their place. *)
Theorem dollars_count_as_line_feed (this : t) (a b : str) :
  ~ In "$"%char a ->
  displayed (updateLineCount this (Some (a ++ js "$$" ++ b)))
  = displayed (updateLineCount this (Some (a ++ LF :: b))).
Proof.
  intros Hd.
  rewrite !updateLineCount_shown by (destruct a; discriminate).
  unfold lineCount_spec, segments, split_lines.
  change (js "$$" ++ b) with ("$"%char :: "$"%char :: b).
  now rewrite split_lines_dollars.
Qed.

Lemma dollars_count_as_line_feed_witness :
  displayed (updateLineCount loaded (Some (js "x = 1" ++ js "$$" ++ js "y")))
  = Some (js "Lines: 2").
Proof.
  rewrite (@dollars_count_as_line_feed loaded (js "x = 1") (js "y")).
  - reflexivity.
  - apply has_no_dollar_sound. reflexivity.
Defined.
